(** * yamlenums: the generation driver and its collaborators

    [main] of yamlenums.go is embedded as a program in a small monad: a
    computation takes the files on disk and yields its outcome (a result or
    an exit status), the files it leaves and the sequence of calls and log
    lines it produced.  filepath.Abs, strings.ToLower, the package
    [parser], the template, go/format and the failures of ioutil.WriteFile
    are parameters of the driver ([Collaborators]); strings.Split,
    strings.Join and filepath.Join are written out.

    The package [parser] and the template are not part of the sources at
    hand; the modules [Parser] and [Generated] model them from the
    specification. *)

From Stdlib Require Import ZArith String Ascii List.
From stdpp Require Import base option list gmap strings fin_maps.

Local Open Scope Z_scope.

(** ** Results of fallible calls *)

Inductive result (E A : Type) : Type :=
| Ok (a : A)
| Err (e : E).
Arguments Ok {E A} a.
Arguments Err {E A} e.

Definition rbind {E A B} (r : result E A) (k : A → result E B) : result E B :=
  match r with
  | Ok a => k a
  | Err e => Err e
  end.

Definition rmap {E A B} (f : A → B) (r : result E A) : result E B :=
  rbind r (λ a, Ok (f a)).

(** ** The package analyzer *)

Module Parser.

(** Modelled from the spec: the package [parser] (ParsePackage,
    ValuesOfType) is not among the sources.  The data model follows
    section 3 of the specification: a package is its name, the integer
    representation of its named types and its constant groups; a constant
    group is the ordered sequence of its entries as written, with the
    expression of an entry that repeats the previous one spelled out. *)
Inductive BinOp := OpAdd | OpSub | OpMul | OpShl | OpShr | OpAnd | OpOr | OpXor.

(** Modelled from the spec: the expressions of step 2 of ValuesOfType, a
    literal, the group-position marker, a reference to a constant and an
    arithmetic or bitwise combination; [Unsupported] stands for every
    other shape. *)
Inductive Expr :=
| Lit (z : Z)
| Iota
| Ident (x : string)
| Binary (op : BinOp) (a b : Expr)
| Unsupported.

Record Entry := {
  entryName : string;
  entryType : option string;
  entryValue : Expr
}.

Definition ConstantGroup := list Entry.

Record IntKind := { isSigned : bool; bitWidth : N }.

Record Package := {
  Name : string;
  Types : list (string * IntKind);
  Groups : list ConstantGroup
}.

(** Modelled from the spec: a resolved constant.  Its declaration order
    index is its position in the list of resolved constants, which is kept
    in declaration order. *)
Record ResolvedConstant := { name : string; value : Z }.

Inductive Error :=
| ParseError (diagnostic : string)
| TypeNotFoundError (typeName : string)
| UnsupportedExpressionError (entry : string).

Global Instance ResolvedConstant_eq_dec : EqDecision ResolvedConstant.
Proof. solve_decision. Defined.

Global Instance Error_eq_dec : EqDecision Error.
Proof. solve_decision. Defined.

(** Modelled from the spec: the bits-exact value of [z] in a
    [bitWidth]-bit signed or unsigned type. *)
Definition wrap (k : IntKind) (z : Z) : Z :=
  let m := 2 ^ Z.of_N (bitWidth k) in
  if isSigned k then (z + m / 2) mod m - m / 2 else z mod m.

Definition kindOf (pkg : Package) (typeName : string) : option IntKind :=
  snd <$> List.find (λ d, String.eqb (fst d) typeName) (Types pkg).

Definition normalize (k : option IntKind) (z : Z) : Z :=
  match k with
  | Some k => wrap k z
  | None => z
  end.

(** Modelled from the spec: step 1 of ValuesOfType, the effective declared
    type of every entry of a group (its own, or that of the nearest entry
    before it that has one), paired with the entry and its zero-based
    position in the group. *)
Fixpoint effectiveTypes (prev : option string) (iota : Z) (g : ConstantGroup)
  : list (option string * Z * Entry) :=
  match g with
  | [] => []
  | e :: g' =>
      let t := match entryType e with
               | Some t => Some t
               | None => prev
               end in
      (t, iota, e) :: effectiveTypes t (iota + 1) g'
  end.

Definition typedEntries (pkg : Package) : list (option string * Z * Entry) :=
  g ← Groups pkg; effectiveTypes None 0 g.

(** Modelled from the spec: step 2 of ValuesOfType, the evaluator over the
    closed set of supported node kinds; a reference is to a constant
    resolved earlier in the same pass. *)
Definition evalOp (op : BinOp) (a b : Z) : option Z :=
  match op with
  | OpAdd => Some (a + b)
  | OpSub => Some (a - b)
  | OpMul => Some (a * b)
  | OpShl => if decide (0 ≤ b) then Some (Z.shiftl a b) else None
  | OpShr => if decide (0 ≤ b) then Some (Z.shiftr a b) else None
  | OpAnd => Some (Z.land a b)
  | OpOr => Some (Z.lor a b)
  | OpXor => Some (Z.lxor a b)
  end.

Fixpoint eval (resolved : list ResolvedConstant) (iota : Z) (e : Expr) : option Z :=
  match e with
  | Lit z => Some z
  | Iota => Some iota
  | Ident x => value <$> List.find (λ r, String.eqb (name r) x) resolved
  | Binary op a b =>
      va ← eval resolved iota a;
      vb ← eval resolved iota b;
      evalOp op va vb
  | Unsupported => None
  end.

(** Modelled from the spec: step 2 of ValuesOfType, the pass over the
    entries whose effective type is [typeName]. *)
Fixpoint resolve (typeName : string) (k : option IntKind)
    (entries : list (option string * Z * Entry))
    (resolved : list ResolvedConstant) : result Error (list ResolvedConstant) :=
  match entries with
  | [] => Ok resolved
  | (t, iota, e) :: entries' =>
      if decide (t = Some typeName) then
        match eval resolved iota (entryValue e) with
        | Some z =>
            resolve typeName k entries'
              (resolved ++ [{| name := entryName e; value := normalize k z |}])
        | None => Err (UnsupportedExpressionError (entryName e))
        end
      else resolve typeName k entries' resolved
  end.

Definition resolveType (pkg : Package) (typeName : string)
  : result Error (list ResolvedConstant) :=
  resolve typeName (kindOf pkg typeName) (typedEntries pkg) [].

(** Modelled from the spec: step 4 of ValuesOfType, the names sharing a
    value, in declaration order. *)
Definition namesOf (v : Z) (rs : list ResolvedConstant) : list string :=
  name <$> filter (λ r, value r = v) rs.

(** Modelled from the spec: the lexicographically smaller of two names,
    compared byte by byte. *)
Definition minString (a b : string) : string :=
  if decide (String.le a b) then a else b.

(** Modelled from the spec: step 4 of ValuesOfType, the canonical name of a
    value: of the names of all entries sharing the value, the
    lexicographically smallest, not the first-declared. *)
Definition canonicalName (rs : list ResolvedConstant) (v : Z) : string :=
  match namesOf v rs with
  | [] => ""
  | n :: ns => foldl minString n ns
  end.

(** Modelled from the spec: step 5 of ValuesOfType, the distinct values in
    order of first appearance, each with its canonical name. *)
Fixpoint firstSeen (vs : list Z) : list Z :=
  match vs with
  | [] => []
  | v :: vs' => v :: filter (λ u, u ≠ v) (firstSeen vs')
  end.

Definition valueTable (rs : list ResolvedConstant) : list (string * Z) :=
  (λ v, (canonicalName rs v, v)) <$> firstSeen (value <$> rs).

(** Modelled from the spec: ValuesOfType, steps 1 to 5, with its result the
    ordered sequence of (name, value) pairs; step 3 is the failure when no
    entry is of the type. *)
Definition ValueTableOf (pkg : Package) (typeName : string)
  : result Error (list (string * Z)) :=
  rbind (resolveType pkg typeName) (λ rs,
    match rs with
    | [] => Err (TypeNotFoundError typeName)
    | _ => Ok (valueTable rs)
    end).

(** The painkiller package of the documentation. *)
Definition pillGroup : ConstantGroup :=
  [ {| entryName := "Placebo"; entryType := Some "Pill"; entryValue := Iota |};
    {| entryName := "Aspirin"; entryType := None; entryValue := Iota |};
    {| entryName := "Ibuprofen"; entryType := None; entryValue := Iota |};
    {| entryName := "Paracetamol"; entryType := None; entryValue := Iota |};
    {| entryName := "Acetaminophen"; entryType := None;
       entryValue := Ident "Paracetamol" |} ].

Definition painkiller : Package :=
  {| Name := "painkiller";
     Types := [("Pill", {| isSigned := true; bitWidth := 64 |})];
     Groups := [pillGroup] |}.

End Parser.

(** ** The methods of the generated file *)

Module Generated.

(** Modelled from the spec: the template (generatedTmpl) is not among the
    sources.  Section 6 of the specification fixes what the generated file
    does: a mapping table value→name and name→value built from the value
    table, a serialization method that returns the canonical name as a
    quoted string token, and a deserialization method that reads such a
    token; both fail with the "invalid value" condition. *)
Inductive Error := InvalidValue.

(** Modelled from the spec: a quoted string token is the name between two
    double quotes. *)
Definition quoteChar : ascii := ascii_of_nat 34.

Definition quote (s : string) : string :=
  String quoteChar (s +:+ String quoteChar "").

Fixpoint dropClosingQuote (s : string) : option string :=
  match s with
  | "" => None
  | String c "" => if decide (c = quoteChar) then Some "" else None
  | String c s' => String c <$> dropClosingQuote s'
  end.

Definition unquote (token : string) : option string :=
  match token with
  | "" => None
  | String c s => if decide (c = quoteChar) then dropClosingQuote s else None
  end.

(** Modelled from the spec: the mapping table of the generated file, in
    both directions. *)
Definition valueToName (table : list (string * Z)) : gmap Z string :=
  list_to_map (prod_swap <$> table).

Definition nameToValue (table : list (string * Z)) : gmap string Z :=
  list_to_map table.

(** Modelled from the spec: the serialization method for the receiver
    [r]. *)
Definition MarshalYAML (table : list (string * Z)) (r : Z) : result Error string :=
  match valueToName table !! r with
  | Some n => Ok (quote n)
  | None => Err InvalidValue
  end.

(** Modelled from the spec: the deserialization method; the result is the
    new value of the receiver. *)
Definition UnmarshalYAML (table : list (string * Z)) (token : string) : result Error Z :=
  match unquote token with
  | Some n =>
      match nameToValue table !! n with
      | Some v => Ok v
      | None => Err InvalidValue
      end
  | None => Err InvalidValue
  end.

End Generated.

(** ** Library functions used by the driver *)

Module GoStrings.

(** strings.Split(s, sep) for a one-byte separator. *)
Fixpoint Split (s : string) (sep : ascii) : list string :=
  match s with
  | "" => [""]
  | String c s' =>
      if decide (c = sep) then "" :: Split s' sep
      else match Split s' sep with
           | [] => [String c ""]
           | h :: t => String c h :: t
           end
  end.

(** strings.Join(elems, sep). *)
Fixpoint Join (elems : list string) (sep : string) : string :=
  match elems with
  | [] => ""
  | [e] => e
  | e :: elems' => e +:+ sep +:+ Join elems' sep
  end.

(** Whether the byte [c] occurs in [s]. *)
Fixpoint hasByte (c : ascii) (s : string) : bool :=
  match s with
  | "" => false
  | String c' s' => bool_decide (c' = c) || hasByte c s'
  end.

End GoStrings.

Module Filepath.

(** path/filepath on Unix: the separator is the slash. *)
Definition Separator : ascii := "/"%char.

Definition IsAbs (path : string) : bool :=
  match path with
  | String c _ => bool_decide (c = Separator)
  | "" => false
  end.

(** The rules of Clean on the elements between separators: empty and "."
    elements are dropped, an inner ".." removes the element before it, a
    ".." at the start of a rooted path is dropped, and leading ".." of a
    relative path stay.  [out] is the cleaned prefix, most recent first. *)
Fixpoint cleanElements (rooted : bool) (out elems : list string) : list string :=
  match elems with
  | [] => reverse out
  | e :: elems' =>
      if decide (e = "" ∨ e = ".") then cleanElements rooted out elems'
      else if decide (e = "..") then
        match out with
        | top :: out' =>
            if decide (top = "..") then cleanElements rooted (e :: out) elems'
            else cleanElements rooted out' elems'
        | [] =>
            if rooted then cleanElements rooted [] elems'
            else cleanElements rooted [e] elems'
        end
      else cleanElements rooted (e :: out) elems'
  end.

Definition Clean (path : string) : string :=
  let elems := cleanElements (IsAbs path) [] (GoStrings.Split path Separator) in
  if IsAbs path then "/" +:+ GoStrings.Join elems "/"
  else match elems with
       | [] => "."
       | _ => GoStrings.Join elems "/"
       end.

(** filepath.Join(dir, name): the elements from the first non-empty one on,
    joined by the separator and cleaned; the empty string if all are empty. *)
Definition Join (dir name : string) : string :=
  if decide (dir = "") then (if decide (name = "") then "" else Clean name)
  else Clean (dir +:+ "/" +:+ name).

(** The cleaned elements of a path. *)
Definition elements (path : string) : list string :=
  cleanElements (IsAbs path) [] (GoStrings.Split path Separator).

(** An element that Clean keeps and that removes nothing. *)
Definition plain (e : string) : Prop := e ≠ "" ∧ e ≠ "." ∧ e ≠ "..".

End Filepath.

(** ** The generation driver (yamlenums.go) *)

(** The flags and arguments of one invocation, as flag.Parse leaves them. *)
Record CommandLine := {
  Args : list string;          (* os.Args[1:] *)
  typeNames : string;          (* -type *)
  outputPrefix : string;       (* -prefix *)
  outputSuffix : string;       (* -suffix *)
  flagArgs : list string       (* flag.Args() *)
}.

(** The anonymous struct [analysis] handed to the template. *)
Record Analysis := {
  Command : string;
  PackageName : string;
  TypesAndValues : gmap string (list string)
}.

Global Instance Analysis_eq_dec : EqDecision Analysis.
Proof. solve_decision. Defined.

Definition setValues (a : Analysis) (typeName : string) (values : list string) : Analysis :=
  {| Command := Command a;
     PackageName := PackageName a;
     TypesAndValues := <[typeName := values]> (TypesAndValues a) |}.

(** What the driver calls: filepath.Abs, the package [parser], strings.ToLower,
    the template, go/format and the outcome of ioutil.WriteFile.  [error] is
    Go's error; the values of a type are a []string. *)
Record Collaborators := {
  error : Type;
  Package : Type;
  pkgName : Package → string;
  Abs : string → result error string;
  ParsePackage : gmap string string → string → result error Package;
  ValuesOfType : Package → string → result error (list string);
  ToLower : string → string;
  Execute : Analysis → result error string;
  Source : string → result error string;
  writeError : gmap string string → string → string → option error
}.

Section Driver.

Context (env : Collaborators).

(** The lines written by the log package, by format string. *)
Inductive Message :=
| TypeFlagMustBeSet             (* "the flag -type must be set" *)
| OnlyOneDirectory              (* "only one directory at a time" *)
| NoAbsolutePath (err : error env)
    (* "unable to determine absolute filepath for requested path %s: %v" *)
| ParsingPackage (err : error env)        (* "parsing package: %v" *)
| FindingValues (typeName : string) (err : error env)
    (* "finding values for type %v: %v" *)
| GeneratingCode (err : error env)        (* "generating code: %v" *)
| InvalidGoGenerated (err : error env)
    (* "warning: internal error: invalid Go generated: %s" *)
| CompileThePackage
    (* "warning: compile the package to analyze the error" *)
| WritingOutput (err : error env).        (* "writing output: %s" *)

(** The calls and log lines of a run, in the order they happen. *)
Inductive Event :=
| CallValuesOfType (typeName : string)
| CallExecute (data : Analysis)
| CallWriteFile (path src : string)
| LogPrintf (m : Message)
| LogFatalf (m : Message).

Inductive Outcome (A : Type) :=
| Return (a : A)
| Exit (code : Z).
Arguments Return {A} a.
Arguments Exit {A} code.

(** A computation takes the files on disk and yields its outcome, the
    files it leaves and the events it produced. *)
Definition M (A : Type) : Type :=
  gmap string string → Outcome A * gmap string string * list Event.

Definition ret {A} (a : A) : M A := λ fs, (Return a, fs, []).

Definition bind {A B} (m : M A) (k : A → M B) : M B :=
  λ fs, match m fs with
        | (Return a, fs', evs) =>
            match k a fs' with
            | (r, fs'', evs') => (r, fs'', evs ++ evs')
            end
        | (Exit code, fs', evs) => (Exit code, fs', evs)
        end.

Notation "x ⇐ m ;; k" := (bind m (λ x, k))
  (at level 100, m at next level, right associativity).
Notation "m ;;; k" := (bind m (λ _, k))
  (at level 100, right associativity).

Definition emit (e : Event) : M unit := λ fs, (Return tt, fs, [e]).

Definition Printf (m : Message) : M unit := emit (LogPrintf m).

(** log.Fatalf writes the line and calls os.Exit(1). *)
Definition Fatalf {A} (m : Message) : M A := λ fs, (Exit 1, fs, [LogFatalf m]).

(** ioutil.WriteFile(path, src, 0644): the file is created or truncated and
    then holds [src]; a failing call leaves the files as they are. *)
Definition WriteFile (path src : string) : M (option (error env)) :=
  λ fs, match writeError env fs path src with
        | Some err => (Return (Some err), fs, [CallWriteFile path src])
        | None => (Return None, <[path := src]> fs, [CallWriteFile path src])
        end.

Definition readFiles : M (gmap string string) := λ fs, (Return fs, fs, []).

Context (cl : CommandLine).

Definition output (typeName : string) : string :=
  ToLower env (outputPrefix cl +:+ typeName +:+ outputSuffix cl +:+ ".go").

(** The body of the loop over the type names. *)
Definition generate (pkg : Package env) (dir : string)
    (analysis : Analysis) (typeName : string) : M Analysis :=
  emit (CallValuesOfType typeName) ;;;
  values ⇐ match ValuesOfType env pkg typeName with
           | Ok values => ret values
           | Err err => Fatalf (FindingValues typeName err)
           end ;;
  let analysis := setValues analysis typeName values in
  emit (CallExecute analysis) ;;;
  buf ⇐ match Execute env analysis with
        | Ok buf => ret buf
        | Err err => Fatalf (GeneratingCode err)
        end ;;
  src ⇐ match Source env buf with
        | Ok src => ret src
        | Err err =>
            Printf (InvalidGoGenerated err) ;;;
            Printf CompileThePackage ;;;
            ret buf
        end ;;
  let outputPath := Filepath.Join dir (output typeName) in
  err ⇐ WriteFile outputPath src ;;
  match err with
  | Some err => Fatalf (WritingOutput err)
  | None => ret analysis
  end.

(** [for _, typeName := range types]: the map of [analysis] is shared by
    all iterations. *)
Fixpoint generateAll (pkg : Package env) (dir : string)
    (analysis : Analysis) (types : list string) : M Analysis :=
  match types with
  | [] => ret analysis
  | typeName :: types' =>
      analysis' ⇐ generate pkg dir analysis typeName ;;
      generateAll pkg dir analysis' types'
  end.

Definition types : list string := GoStrings.Split (typeNames cl) ","%char.

Definition analysis (pkg : Package env) : Analysis :=
  {| Command := GoStrings.Join (Args cl) " ";
     PackageName := pkgName env pkg;
     TypesAndValues := ∅ |}.

Definition main : M unit :=
  if decide (String.length (typeNames cl) = 0%nat) then Fatalf TypeFlagMustBeSet
  else
    dir ⇐ match flagArgs cl with
          | [] => ret "."
          | [arg] => ret arg
          | _ => Fatalf OnlyOneDirectory
          end ;;
    dir ⇐ match Abs env dir with
          | Ok dir => ret dir
          | Err err => Fatalf (NoAbsolutePath err)
          end ;;
    fs ⇐ readFiles ;;
    pkg ⇐ match ParsePackage env fs dir with
          | Ok pkg => ret pkg
          | Err err => Fatalf (ParsingPackage err)
          end ;;
    generateAll pkg dir (analysis pkg) types ;;;
    ret tt.

End Driver.

Arguments Return {A} a.
Arguments Exit {A} code.
Arguments CallValuesOfType {env} typeName.
Arguments CallExecute {env} data.
Arguments CallWriteFile {env} path src.
Arguments LogPrintf {env} m.
Arguments LogFatalf {env} m.
Arguments TypeFlagMustBeSet {env}.
Arguments OnlyOneDirectory {env}.
Arguments NoAbsolutePath {env} err.
Arguments ParsingPackage {env} err.
Arguments FindingValues {env} typeName err.
Arguments GeneratingCode {env} err.
Arguments InvalidGoGenerated {env} err.
Arguments CompileThePackage {env}.
Arguments WritingOutput {env} err.

(** ** A concrete set of collaborators *)

Module Demo.

(** The painkiller package with the constants of Pill given other values. *)
Definition entry (n : string) (t : option string) (e : Parser.Expr) : Parser.Entry :=
  {| Parser.entryName := n; Parser.entryType := t; Parser.entryValue := e |}.

Definition int64 : Parser.IntKind := {| Parser.isSigned := true; Parser.bitWidth := 64 |}.

Definition uint8 : Parser.IntKind := {| Parser.isSigned := false; Parser.bitWidth := 8 |}.

Definition renumbered : Parser.Package :=
  {| Parser.Name := "painkiller";
     Parser.Types := [("Pill", int64)];
     Parser.Groups :=
       [[ entry "Placebo" (Some "Pill") (Parser.Lit 10);
          entry "Aspirin" None (Parser.Lit 11);
          entry "Ibuprofen" None (Parser.Lit 12);
          entry "Paracetamol" None (Parser.Lit 13);
          entry "Acetaminophen" None (Parser.Ident "Paracetamol") ]] |}.

(** A package with two enumerated types. *)
Definition colorGroup : Parser.ConstantGroup :=
  [ entry "Red" (Some "Color") (Parser.Binary Parser.OpShl (Parser.Lit 1) Parser.Iota);
    entry "Green" None (Parser.Binary Parser.OpShl (Parser.Lit 1) Parser.Iota);
    entry "Blue" None (Parser.Binary Parser.OpShl (Parser.Lit 1) Parser.Iota) ].

Definition clinic : Parser.Package :=
  {| Parser.Name := "clinic";
     Parser.Types := [("Pill", int64); ("Color", uint8)];
     Parser.Groups := [Parser.pillGroup; colorGroup] |}.

(** Stand-ins used to run the driver: the working directory is
    /src/painkiller; the directories /src/painkiller and /src/clinic hold
    the packages of these names, and the file pill.go decides which
    constants painkiller declares; the analyzer hands over one string per
    entry of the value table, its name; strings.ToLower is given on ASCII
    strings, where it lowers the letters A to Z; the template renders the
    table as text; go/format accepts every source and every file can be
    written. *)
Definition names (pkg : Parser.Package) (typeName : string)
  : result Parser.Error (list string) :=
  rmap (fmap fst) (Parser.ValueTableOf pkg typeName).

Definition lowerByte (c : ascii) : ascii :=
  let n := N_of_ascii c in
  if ((65 <=? n) && (n <=? 90))%N then ascii_of_N (n + 32) else c.

Fixpoint lowerASCII (s : string) : string :=
  match s with
  | "" => ""
  | String c s' => String (lowerByte c) (lowerASCII s')
  end.

Definition renderType (tv : string * list string) : string :=
  "type " +:+ tv.1 +:+ ": " +:+ GoStrings.Join tv.2 " " +:+ ";".

Definition render (a : Analysis) : string :=
  "// " +:+ Command a +:+ "; package " +:+ PackageName a +:+ "; "
  +:+ GoStrings.Join (renderType <$> map_to_list (TypesAndValues a)) " ".

Definition parse (fs : gmap string string) (dir : string)
  : result Parser.Error Parser.Package :=
  if decide (dir = "/src/painkiller") then
    match fs !! "/src/painkiller/pill.go" with
    | Some "renumbered" => Ok renumbered
    | _ => Ok Parser.painkiller
    end
  else if decide (dir = "/src/clinic") then Ok clinic
  else Err (Parser.ParseError dir).

Definition env : Collaborators := {|
  error := Parser.Error;
  Package := Parser.Package;
  pkgName := Parser.Name;
  Abs := λ dir, Ok (if decide (dir = ".") then "/src/painkiller" else dir);
  ParsePackage := parse;
  ValuesOfType := names;
  ToLower := lowerASCII;
  Execute := λ a, Ok (render a);
  Source := λ buf, Ok buf;
  writeError := λ fs path src, None
|}.

(** The same collaborators with a go/format that rejects every source. *)
Definition unformattable : Collaborators := {|
  error := Parser.Error;
  Package := Parser.Package;
  pkgName := Parser.Name;
  Abs := Abs env;
  ParsePackage := parse;
  ValuesOfType := names;
  ToLower := lowerASCII;
  Execute := λ a, Ok (render a);
  Source := λ buf, Err (Parser.ParseError "expected declaration");
  writeError := λ fs path src, None
|}.

(** The value table of Pill. *)
Definition pillTable : list (string * Z) :=
  [("Placebo", 0); ("Aspirin", 1); ("Ibuprofen", 2); ("Acetaminophen", 3)].

(** yamlenums -type=Pill *)
Definition pill : CommandLine := {|
  Args := ["-type=Pill"];
  typeNames := "Pill";
  outputPrefix := "";
  outputSuffix := "_yamlenums";
  flagArgs := []
|}.

(** yamlenums -prefix=x -suffix=_y -type=Pill *)
Definition prefixed : CommandLine := {|
  Args := ["-prefix=x"; "-suffix=_y"; "-type=Pill"];
  typeNames := "Pill";
  outputPrefix := "x";
  outputSuffix := "_y";
  flagArgs := []
|}.

(** yamlenums -prefix=../ -type=Pill *)
Definition escaping : CommandLine := {|
  Args := ["-prefix=../"; "-type=Pill"];
  typeNames := "Pill";
  outputPrefix := "../";
  outputSuffix := "_yamlenums";
  flagArgs := []
|}.

(** yamlenums -type=Pill,Color /src/clinic *)
Definition pillAndColor : CommandLine := {|
  Args := ["-type=Pill,Color"; "/src/clinic"];
  typeNames := "Pill,Color";
  outputPrefix := "";
  outputSuffix := "_yamlenums";
  flagArgs := ["/src/clinic"]
|}.

(** yamlenums -type=Pill,Colour,Color /src/clinic *)
Definition pillAndColour : CommandLine := {|
  Args := ["-type=Pill,Colour,Color"; "/src/clinic"];
  typeNames := "Pill,Colour,Color";
  outputPrefix := "";
  outputSuffix := "_yamlenums";
  flagArgs := ["/src/clinic"]
|}.

(** yamlenums -type=Pill /nowhere *)
Definition elsewhere : CommandLine := {|
  Args := ["-type=Pill"; "/nowhere"];
  typeNames := "Pill";
  outputPrefix := "";
  outputSuffix := "_yamlenums";
  flagArgs := ["/nowhere"]
|}.


(** The collaborators when the working directory cannot be determined,
    when the template fails and when no file can be written. *)
Definition lost : Collaborators := {|
  error := Parser.Error;
  Package := Parser.Package;
  pkgName := Parser.Name;
  Abs := λ dir, Err (Parser.ParseError "getwd");
  ParsePackage := parse;
  ValuesOfType := names;
  ToLower := lowerASCII;
  Execute := λ a, Ok (render a);
  Source := λ buf, Ok buf;
  writeError := λ fs path src, None
|}.

Definition brokenTemplate : Collaborators := {|
  error := Parser.Error;
  Package := Parser.Package;
  pkgName := Parser.Name;
  Abs := Abs env;
  ParsePackage := parse;
  ValuesOfType := names;
  ToLower := lowerASCII;
  Execute := λ a, Err (Parser.ParseError "template");
  Source := λ buf, Ok buf;
  writeError := λ fs path src, None
|}.

Definition readOnly : Collaborators := {|
  error := Parser.Error;
  Package := Parser.Package;
  pkgName := Parser.Name;
  Abs := Abs env;
  ParsePackage := parse;
  ValuesOfType := names;
  ToLower := lowerASCII;
  Execute := λ a, Ok (render a);
  Source := λ buf, Ok buf;
  writeError := λ fs path src, Some (Parser.ParseError "permission denied")
|}.

(** yamlenums -type=Pill,Pill /src/clinic *)
Definition pillTwice : CommandLine := {|
  Args := ["-type=Pill,Pill"; "/src/clinic"];
  typeNames := "Pill,Pill";
  outputPrefix := "";
  outputSuffix := "_yamlenums";
  flagArgs := ["/src/clinic"]
|}.

(** yamlenums /src/painkiller *)
Definition untyped : CommandLine := {|
  Args := ["/src/painkiller"];
  typeNames := "";
  outputPrefix := "";
  outputSuffix := "_yamlenums";
  flagArgs := ["/src/painkiller"]
|}.

End Demo.

(** ** Vocabulary of the statements *)

(** The contexts handed to the template, the files written and the types
    analyzed in a sequence of events. *)
Definition executed {env} (evs : list (Event env)) : list Analysis :=
  omap (λ e, match e with CallExecute a => Some a | _ => None end) evs.

Definition written {env} (evs : list (Event env)) : list (string * string) :=
  omap (λ e, match e with CallWriteFile p s => Some (p, s) | _ => None end) evs.

Definition analyzed {env} (evs : list (Event env)) : list string :=
  omap (λ e, match e with CallValuesOfType t => Some t | _ => None end) evs.

Definition fatal {env} (evs : list (Event env)) : list (Message env) :=
  omap (λ e, match e with LogFatalf m => Some m | _ => None end) evs.

Definition warnings {env} (evs : list (Event env)) : list (Message env) :=
  omap (λ e, match e with LogPrintf m => Some m | _ => None end) evs.

(** The files after a sequence of successful writes. *)
Definition store (fs : gmap string string) (ws : list (string * string))
  : gmap string string :=
  foldl (λ m w, <[w.1 := w.2]> m) fs ws.

(** Every write of the sequence succeeds, each on the files left by the
    writes before it. *)
Fixpoint writesSucceed (env : Collaborators) (fs : gmap string string)
    (ws : list (string * string)) : Prop :=
  match ws with
  | [] => True
  | w :: ws' => writeError env fs w.1 w.2 = None ∧ writesSucceed env (<[w.1 := w.2]> fs) ws'
  end.

(** The directory named on the command line. *)
Definition requestedDir (cl : CommandLine) : string :=
  match flagArgs cl with
  | [arg] => arg
  | _ => "."
  end.

(** The name of the output file of a type in the words of the
    specification. *)
Definition outputName (env : Collaborators) (cl : CommandLine) (typeName : string)
  : string :=
  ToLower env (outputPrefix cl +:+ typeName +:+ outputSuffix cl) +:+ ".go".

(** strings.ToLower leaves the extension ".go" at the end of a name. *)
Definition keepsExtension (env : Collaborators) : Prop :=
  ∀ x, ToLower env (x +:+ ".go") = ToLower env x +:+ ".go".

(** A name that ends in ".go". *)
Definition endsInGo (name : string) : Prop := ∃ stem, name = stem +:+ ".go".

(** The two warnings logged when go/format rejects the generated text. *)
Definition isFormatWarning {env} (m : Message env) : Prop :=
  match m with
  | InvalidGoGenerated _ | CompileThePackage => True
  | _ => False
  end.

Section Runs.

Context (env : Collaborators) (cl : CommandLine).

Implicit Types (pkg : Package env) (a : Analysis) (fs : gmap string string).

(** What the source returns in place of the formatted text, and what it
    logs, after go/format has run on [buf]. *)
Definition formatted (buf : string) : string :=
  match Source env buf with
  | Ok src => src
  | Err _ => buf
  end.

Definition formatWarnings (buf : string) : list (Event env) :=
  match Source env buf with
  | Ok _ => []
  | Err err => [LogPrintf (InvalidGoGenerated err); LogPrintf CompileThePackage]
  end.

(** The warning [m] reports a rendering among [evs] that go/format
    rejected. *)
Definition reportsFormatFailure (evs : list (Event env)) (m : Message env) : Prop :=
  ∃ ctx buf err,
    ctx ∈ executed evs ∧ Execute env ctx = Ok buf ∧ Source env buf = Err err ∧
    (m = InvalidGoGenerated err ∨ m = CompileThePackage).

Definition valuesOr pkg (T : string) : list string :=
  match ValuesOfType env pkg T with
  | Ok values => values
  | Err _ => []
  end.

(** The table of [analysis] after the given types have been analyzed. *)
Definition accumulate pkg a (ts : list string) : Analysis :=
  foldl (λ a T, setValues a T (valuesOr pkg T)) a ts.

Definition outputPath (dir T : string) : string := Filepath.Join dir (output env cl T).

(** [Completes pkg dir a fs ts a' fs' evs]: from the table [a] and the
    files [fs], every type of [ts] in turn is analyzed, rendered and
    written; the loop ends with the table [a'], the files [fs'] and has
    produced the events [evs]. *)
Inductive Completes pkg (dir : string)
  : Analysis → gmap string string → list string →
    Analysis → gmap string string → list (Event env) → Prop :=
| Completes_nil a fs : Completes pkg dir a fs [] a fs []
| Completes_cons a fs T ts values buf a' fs' evs :
    ValuesOfType env pkg T = Ok values →
    Execute env (setValues a T values) = Ok buf →
    writeError env fs (outputPath dir T) (formatted buf) = None →
    Completes pkg dir (setValues a T values)
      (<[outputPath dir T := formatted buf]> fs) ts a' fs' evs →
    Completes pkg dir a fs (T :: ts) a' fs'
      ([CallValuesOfType T; CallExecute (setValues a T values)]
       ++ formatWarnings buf
       ++ [CallWriteFile (outputPath dir T) (formatted buf)] ++ evs).

End Runs.

(** ** Properties of the package analyzer *)

Module ParserFacts.
Import Parser.

Lemma elem_of_firstSeen v vs : v ∈ firstSeen vs ↔ v ∈ vs.
Proof.
  induction vs as [|u vs IH]; simpl; [done|].
  rewrite !elem_of_cons, list_elem_of_filter, IH.
  destruct (decide (v = u)); tauto.
Qed.

Lemma NoDup_firstSeen vs : NoDup (firstSeen vs).
Proof.
  induction vs as [|u vs IH]; simpl; [constructor|].
  constructor; [|by apply NoDup_filter].
  rewrite list_elem_of_filter. tauto.
Qed.

Lemma elem_of_namesOf n v rs : n ∈ namesOf v rs ↔ {| name := n; value := v |} ∈ rs.
Proof.
  unfold namesOf. rewrite list_elem_of_fmap. split.
  - intros ([n' v'] & -> & [Hv Hin]%list_elem_of_filter). simpl in *. by subst v'.
  - intros Hin. exists {| name := n; value := v |}. split; [done|].
    apply list_elem_of_filter. by split.
Qed.

Lemma namesOf_nonempty v rs : v ∈ value <$> rs → namesOf v rs ≠ [].
Proof.
  intros ([n v'] & -> & Hin)%list_elem_of_fmap Hnil. simpl in Hnil.
  apply elem_of_namesOf in Hin. rewrite Hnil in Hin. by apply elem_of_nil in Hin.
Qed.

Lemma namesOf_nil v rs : v ∉ value <$> rs → namesOf v rs = [].
Proof.
  intros Hv. destruct (namesOf v rs) as [|n ns] eqn:Hn; [done|]. exfalso. apply Hv.
  assert (n ∈ namesOf v rs) as Hin by (rewrite Hn; apply elem_of_cons; by left).
  apply elem_of_namesOf in Hin. apply list_elem_of_fmap.
  by exists {| name := n; value := v |}.
Qed.

Lemma namesOf_Permutation v rs rs' : rs ≡ₚ rs' → namesOf v rs ≡ₚ namesOf v rs'.
Proof. intros Hp. unfold namesOf. by rewrite Hp. Qed.

(** The smaller of two names is one of them and is below both. *)
Lemma minString_le_l a b : String.le (minString a b) a.
Proof.
  unfold minString. case_decide as Hab; [done|].
  by destruct (total String.le a b).
Qed.

Lemma minString_le_r a b : String.le (minString a b) b.
Proof. unfold minString. by case_decide. Qed.

Lemma minString_cases a b : minString a b = a ∨ minString a b = b.
Proof. unfold minString. case_decide; auto. Qed.

Lemma foldl_minString ns n :
  foldl minString n ns ∈ n :: ns ∧
  ∀ x, x ∈ n :: ns → String.le (foldl minString n ns) x.
Proof.
  revert n. induction ns as [|m ns IH]; intros n; simpl.
  - split; [apply elem_of_cons; by left|].
    by intros x ->%list_elem_of_singleton.
  - destruct (IH (minString n m)) as [Hin Hle]. split.
    + apply elem_of_cons in Hin as [->|Hin].
      * destruct (minString_cases n m) as [-> | ->].
        -- apply elem_of_cons. by left.
        -- apply elem_of_cons. right. apply elem_of_cons. by left.
      * apply elem_of_cons. right. apply elem_of_cons. by right.
    + intros x Hx.
      assert (String.le (foldl minString (minString n m) ns) (minString n m)) as Hmin.
      { apply Hle, elem_of_cons. by left. }
      apply elem_of_cons in Hx as [->|Hx].
      { etrans; [exact Hmin|apply minString_le_l]. }
      apply elem_of_cons in Hx as [->|Hx].
      { etrans; [exact Hmin|apply minString_le_r]. }
      apply Hle, elem_of_cons. by right.
Qed.

(** The canonical name of a value is the name of an entry of that value
    and is below the names of all entries of that value. *)
Lemma canonicalName_smallest rs v :
  v ∈ value <$> rs →
  canonicalName rs v ∈ namesOf v rs ∧
  ∀ n, n ∈ namesOf v rs → String.le (canonicalName rs v) n.
Proof.
  intros Hv%namesOf_nonempty. unfold canonicalName.
  destruct (namesOf v rs) as [|n ns]; [done|]. apply foldl_minString.
Qed.

Lemma smallest_unique (l : list string) a b :
  a ∈ l → (∀ x, x ∈ l → String.le a x) →
  b ∈ l → (∀ x, x ∈ l → String.le b x) → a = b.
Proof. intros Ha Hla Hb Hlb. apply (anti_symm String.le); auto. Qed.

(** The canonical name does not depend on the order of the entries. *)
Lemma canonicalName_Permutation rs rs' v :
  rs ≡ₚ rs' → canonicalName rs v = canonicalName rs' v.
Proof.
  intros Hp. destruct (decide (v ∈ value <$> rs)) as [Hv|Hv].
  - assert (v ∈ value <$> rs') as Hv' by (by rewrite <- Hp).
    destruct (canonicalName_smallest rs v Hv) as [Hin Hle].
    destruct (canonicalName_smallest rs' v Hv') as [Hin' Hle'].
    pose proof (namesOf_Permutation v rs rs' Hp) as Hn.
    apply (smallest_unique (namesOf v rs)); [done|done|by rewrite Hn|].
    intros x Hx. apply Hle'. by rewrite <- Hn.
  - assert (v ∉ value <$> rs') as Hv' by (by rewrite <- Hp).
    unfold canonicalName. by rewrite (namesOf_nil v rs), (namesOf_nil v rs').
Qed.

Lemma valueTable_spec rs n v :
  (n, v) ∈ valueTable rs ↔ v ∈ value <$> rs ∧ n = canonicalName rs v.
Proof.
  unfold valueTable. rewrite list_elem_of_fmap. split.
  - intros (u & [= -> ->] & Hin). by rewrite elem_of_firstSeen in Hin.
  - intros [Hv ->]. exists v. by rewrite elem_of_firstSeen.
Qed.

Lemma valueTable_values rs : (valueTable rs).*2 = firstSeen (value <$> rs).
Proof.
  unfold valueTable. rewrite <- list_fmap_compose.
  generalize (firstSeen (value <$> rs)).
  induction l as [|v vs IH]; simpl; [done|]. by f_equal.
Qed.

(** Constants with pairwise distinct names give a table with pairwise
    distinct names. *)
Lemma same_name_same_value rs n v1 v2 :
  NoDup (name <$> rs) →
  {| name := n; value := v1 |} ∈ rs → {| name := n; value := v2 |} ∈ rs → v1 = v2.
Proof.
  induction rs as [|r rs IH]; [by intros _ ?%elem_of_nil|].
  rewrite fmap_cons. intros [Hr Hrs]%NoDup_cons.
  intros [<-|H1]%elem_of_cons [Heq|H2]%elem_of_cons.
  - by injection Heq.
  - exfalso. apply Hr. simpl. apply list_elem_of_fmap.
    by exists {| name := n; value := v2 |}.
  - exfalso. apply Hr. subst r. simpl. apply list_elem_of_fmap.
    by exists {| name := n; value := v1 |}.
  - by apply IH.
Qed.

Lemma valueTable_names rs : NoDup (name <$> rs) → NoDup (valueTable rs).*1.
Proof.
  intros Hnames. unfold valueTable. rewrite <- list_fmap_compose.
  apply NoDup_fmap_2_strong; [|apply NoDup_firstSeen].
  intros v1 v2 Hv1 Hv2. simpl. intros Heq.
  rewrite elem_of_firstSeen in Hv1. rewrite elem_of_firstSeen in Hv2.
  destruct (canonicalName_smallest rs v1 Hv1) as [H1%elem_of_namesOf _].
  destruct (canonicalName_smallest rs v2 Hv2) as [H2%elem_of_namesOf _].
  rewrite <- Heq in H2.
  by apply (same_name_same_value rs (canonicalName rs v1)).
Qed.

Lemma ValueTableOf_inv pkg typeName table :
  ValueTableOf pkg typeName = Ok table →
  ∃ rs, resolveType pkg typeName = Ok rs ∧ rs ≠ [] ∧ table = valueTable rs.
Proof.
  unfold ValueTableOf, rbind. destruct (resolveType pkg typeName) as [rs|]; [|done].
  destruct rs as [|r rs]; [done|]. intros [= <-]. by exists (r :: rs).
Qed.

End ParserFacts.

(** ** Properties of the generated methods *)

Module GeneratedFacts.
Import Generated.

Lemma dropClosingQuote_app n : dropClosingQuote (n +:+ String quoteChar "") = Some n.
Proof.
  induction n as [|c n IH]; [done|].
  change (String c n +:+ String quoteChar "")
    with (String c (n +:+ String quoteChar "")).
  simpl. rewrite IH. by destruct n.
Qed.

Lemma unquote_quote n : unquote (quote n) = Some n.
Proof. unfold quote, unquote. case_decide; [apply dropClosingQuote_app|done]. Qed.

Lemma valueToName_lookup (table : list (string * Z)) n v :
  NoDup table.*2 → (n, v) ∈ table → valueToName table !! v = Some n.
Proof.
  intros Hnd Hin. apply elem_of_list_to_map_1.
  - by rewrite <- list_fmap_compose.
  - apply list_elem_of_fmap. by exists (n, v).
Qed.

Lemma nameToValue_lookup (table : list (string * Z)) n v :
  NoDup table.*1 → (n, v) ∈ table → nameToValue table !! n = Some v.
Proof. intros. by apply elem_of_list_to_map_1. Qed.

Lemma nameToValue_unknown (table : list (string * Z)) n :
  n ∉ table.*1 → nameToValue table !! n = None.
Proof. intros. by apply not_elem_of_list_to_map_1. Qed.

End GeneratedFacts.

(** ** Properties of the driver *)

Section DriverFacts.

Context (env : Collaborators) (cl : CommandLine).

Implicit Types (pkg : Package env) (a : Analysis) (fs : gmap string string).
Implicit Types (evs : list (Event env)).

(** One iteration of the loop, case by case. *)
Lemma generate_eq pkg dir a T fs :
  generate env cl pkg dir a T fs =
  match ValuesOfType env pkg T with
  | Err err => (Exit 1, fs, [CallValuesOfType T; LogFatalf (FindingValues T err)])
  | Ok values =>
      let a' := setValues a T values in
      match Execute env a' with
      | Err err =>
          (Exit 1, fs, [CallValuesOfType T; CallExecute a'; LogFatalf (GeneratingCode err)])
      | Ok buf =>
          let path := Filepath.Join dir (output env cl T) in
          match writeError env fs path (formatted env buf) with
          | Some err =>
              (Exit 1, fs,
               [CallValuesOfType T; CallExecute a'] ++ formatWarnings env buf
               ++ [CallWriteFile path (formatted env buf); LogFatalf (WritingOutput err)])
          | None =>
              (Return a', <[path := formatted env buf]> fs,
               [CallValuesOfType T; CallExecute a'] ++ formatWarnings env buf
               ++ [CallWriteFile path (formatted env buf)])
          end
      end
  end.
Proof.
  unfold generate, bind, emit, ret, Fatalf, Printf, WriteFile, formatted, formatWarnings.
  destruct (ValuesOfType env pkg T) as [values|err]; [|reflexivity]. simpl.
  destruct (Execute env (setValues a T values)) as [buf|err]; [|reflexivity].
  destruct (Source env buf) as [src|err]; simpl.
  - destruct (writeError env fs _ src); reflexivity.
  - destruct (writeError env fs _ buf); reflexivity.
Qed.

Lemma generateAll_cons pkg dir a T ts fs :
  generateAll env cl pkg dir a (T :: ts) fs =
  match generate env cl pkg dir a T fs with
  | (Return a', fs', evs) =>
      match generateAll env cl pkg dir a' ts fs' with
      | (r, fs'', evs') => (r, fs'', evs ++ evs')
      end
  | (Exit code, fs', evs) => (Exit code, fs', evs)
  end.
Proof. reflexivity. Qed.

Lemma generateAll_app pkg dir a ts1 ts2 fs :
  generateAll env cl pkg dir a (ts1 ++ ts2) fs =
  match generateAll env cl pkg dir a ts1 fs with
  | (Return a', fs', evs) =>
      match generateAll env cl pkg dir a' ts2 fs' with
      | (r, fs'', evs') => (r, fs'', evs ++ evs')
      end
  | (Exit code, fs', evs) => (Exit code, fs', evs)
  end.
Proof.
  revert a fs. induction ts1 as [|T ts1 IH]; intros a fs.
  - simpl. unfold ret. by destruct (generateAll env cl pkg dir a ts2 fs) as [[r fs'] evs].
  - change ((T :: ts1) ++ ts2) with (T :: (ts1 ++ ts2)).
    rewrite !generateAll_cons.
    destruct (generate env cl pkg dir a T fs) as [[[a'|code] fs'] evs]; [|done].
    rewrite IH.
    destruct (generateAll env cl pkg dir a' ts1 fs') as [[[a''|code] fs''] evs']; [|done].
    destruct (generateAll env cl pkg dir a'' ts2 fs'') as [[r fs3] evs3].
    by rewrite app_assoc.
Qed.

(** The run once the flags are in order and the package is parsed. *)
Lemma main_eq fs :
  main env cl fs =
  if decide (typeNames cl = "") then (Exit 1, fs, [LogFatalf TypeFlagMustBeSet])
  else if decide (1 < length (flagArgs cl))%nat then (Exit 1, fs, [LogFatalf OnlyOneDirectory])
  else match Abs env (requestedDir cl) with
       | Err err => (Exit 1, fs, [LogFatalf (NoAbsolutePath err)])
       | Ok dir =>
           match ParsePackage env fs dir with
           | Err err => (Exit 1, fs, [LogFatalf (ParsingPackage err)])
           | Ok pkg =>
               match generateAll env cl pkg dir (analysis env cl pkg) (types cl) fs with
               | (Return _, fs', evs) => (Return tt, fs', evs)
               | (Exit code, fs', evs) => (Exit code, fs', evs)
               end
           end
       end.
Proof.
  unfold main, requestedDir.
  destruct (typeNames cl) as [|c s] eqn:Htn; simpl; [reflexivity|].
  destruct (flagArgs cl) as [|arg [|arg' rest]] eqn:Hargs; simpl.
  - unfold bind at 1, ret at 1.
    destruct (Abs env ".") as [dir|err]; [|reflexivity].
    unfold bind, ret, readFiles. simpl.
    destruct (ParsePackage env fs dir) as [pkg|err]; [|reflexivity].
    destruct (generateAll env cl pkg dir _ _ fs) as [[[a'|code] fs'] evs]; [|done].
    by rewrite app_nil_r.
  - unfold bind at 1, ret at 1.
    destruct (Abs env arg) as [dir|err]; [|reflexivity].
    unfold bind, ret, readFiles. simpl.
    destruct (ParsePackage env fs dir) as [pkg|err]; [|reflexivity].
    destruct (generateAll env cl pkg dir _ _ fs) as [[[a'|code] fs'] evs]; [|done].
    by rewrite app_nil_r.
  - reflexivity.
Qed.


(** *** The contexts handed to the template *)

Lemma executed_app evs1 evs2 : executed (evs1 ++ evs2) = executed evs1 ++ executed evs2.
Proof. apply omap_app. Qed.

Lemma written_app evs1 evs2 : written (evs1 ++ evs2) = written evs1 ++ written evs2.
Proof. apply omap_app. Qed.

Lemma executed_formatWarnings buf : executed (formatWarnings env buf) = [].
Proof. unfold formatWarnings. by destruct (Source env buf). Qed.

Lemma written_formatWarnings buf : written (formatWarnings env buf) = [].
Proof. unfold formatWarnings. by destruct (Source env buf). Qed.

Lemma fatal_formatWarnings buf : fatal (formatWarnings env buf) = [].
Proof. unfold formatWarnings. by destruct (Source env buf). Qed.

Lemma analyzed_formatWarnings buf : analyzed (formatWarnings env buf) = [].
Proof. unfold formatWarnings. by destruct (Source env buf). Qed.

(** What one iteration leaves when it returns. *)
Lemma generate_Return pkg dir a T fs a' fs' evs :
  generate env cl pkg dir a T fs = (Return a', fs', evs) →
  ∃ values buf,
    ValuesOfType env pkg T = Ok values ∧
    a' = setValues a T values ∧
    Execute env a' = Ok buf ∧
    writeError env fs (Filepath.Join dir (output env cl T)) (formatted env buf) = None ∧
    fs' = <[Filepath.Join dir (output env cl T) := formatted env buf]> fs ∧
    evs = [CallValuesOfType T; CallExecute a'] ++ formatWarnings env buf
          ++ [CallWriteFile (Filepath.Join dir (output env cl T)) (formatted env buf)].
Proof.
  rewrite generate_eq.
  destruct (ValuesOfType env pkg T) as [values|err]; [|done]. cbv zeta.
  destruct (Execute env (setValues a T values)) as [buf|err] eqn:Hex; [|done].
  destruct (writeError env fs _ (formatted env buf)) as [err|] eqn:Hw; [done|].
  intros [= <- <- <-]. by exists values, buf.
Qed.

(** What one iteration leaves when it exits. *)
Lemma generate_Exit pkg dir a T fs code fs' evs :
  generate env cl pkg dir a T fs = (Exit code, fs', evs) →
  code = 1 ∧ fs' = fs ∧
  ((∃ err, ValuesOfType env pkg T = Err err ∧
           evs = [CallValuesOfType T; LogFatalf (FindingValues T err)]) ∨
   (∃ values, ValuesOfType env pkg T = Ok values ∧
      ((∃ err, Execute env (setValues a T values) = Err err ∧
               evs = [CallValuesOfType T; CallExecute (setValues a T values);
                      LogFatalf (GeneratingCode err)]) ∨
       (∃ buf err, Execute env (setValues a T values) = Ok buf ∧
               writeError env fs (Filepath.Join dir (output env cl T)) (formatted env buf)
                 = Some err ∧
               evs = [CallValuesOfType T; CallExecute (setValues a T values)]
                     ++ formatWarnings env buf
                     ++ [CallWriteFile (Filepath.Join dir (output env cl T)) (formatted env buf);
                         LogFatalf (WritingOutput err)])))).
Proof.
  rewrite generate_eq.
  destruct (ValuesOfType env pkg T) as [values|err].
  - cbv zeta. destruct (Execute env (setValues a T values)) as [buf|err] eqn:Hex.
    + destruct (writeError env fs _ (formatted env buf)) as [err|] eqn:Hw; [|done].
      intros [= <- <- <-]. repeat split. right. exists values. split; [done|].
      right. by exists buf, err.
    + intros [= <- <- <-]. repeat split. right. exists values. split; [done|].
      left. by exists err.
  - intros [= <- <- <-]. repeat split. left. by exists err.
Qed.

Lemma accumulate_snoc pkg a ts T :
  accumulate env pkg a (ts ++ [T]) = setValues (accumulate env pkg a ts) T (valuesOr env pkg T).
Proof. unfold accumulate. by rewrite foldl_app. Qed.



Lemma accumulate_lookup pkg a ts T :
  TypesAndValues (accumulate env pkg a ts) !! T =
  if decide (T ∈ ts) then Some (valuesOr env pkg T) else TypesAndValues a !! T.
Proof.
  induction ts as [|T' ts IH] using rev_ind.
  - reflexivity.
  - rewrite accumulate_snoc. simpl. destruct (decide (T' = T)) as [->|Hne].
    + rewrite lookup_insert_eq. rewrite decide_True; [done|].
      apply elem_of_app. right. by apply list_elem_of_singleton.
    + rewrite lookup_insert_ne by done. rewrite IH.
      destruct (decide (T ∈ ts)) as [Hin|Hnin], (decide (T ∈ ts ++ [T'])) as [Hin'|Hnin'];
        try done; exfalso.
      * apply Hnin', elem_of_app. by left.
      * apply elem_of_app in Hin' as [?|Heq%list_elem_of_singleton]; [done|congruence].
Qed.


(** The i-th context handed to the template is the initial one extended
    with the values of the first i+1 types, all of which were found. *)
Lemma generateAll_executed pkg dir ts a fs r fs' evs i ctx :
  generateAll env cl pkg dir a ts fs = (r, fs', evs) →
  executed evs !! i = Some ctx →
  (i < length ts)%nat ∧
  Forall (λ T, ∃ values, ValuesOfType env pkg T = Ok values) (take (S i) ts) ∧
  ctx = accumulate env pkg a (take (S i) ts).
Proof.
  revert a fs r fs' evs i ctx.
  induction ts as [|T ts IH]; intros a fs r fs' evs i ctx.
  - intros [= <- <- <-]. simpl. by rewrite lookup_nil.
  - rewrite generateAll_cons.
    destruct (generate env cl pkg dir a T fs) as [[[a1|code] fs1] evs1] eqn:Hgen.
    + apply generate_Return in Hgen as (values & buf & HT & -> & Hex & Hw & -> & ->).
      destruct (generateAll env cl pkg dir _ ts _) as [[r2 fs2] evs2] eqn:Hall.
      intros [= <- <- <-]. simpl. rewrite !executed_app, executed_formatWarnings.
      simpl. destruct i as [|i]; simpl.
      * intros [= <-]. repeat split; [lia| |].
        -- constructor; [by exists values|]. rewrite ?take_0. constructor.
        -- rewrite ?take_0. simpl. unfold valuesOr. by rewrite HT.
      * intros Hi. destruct (IH _ _ _ _ _ _ _ Hall Hi) as (Hlt & Hall' & ->).
        repeat split; [lia| |].
        -- constructor; [by exists values|done].
        -- replace (valuesOr env pkg T) with values; [done|].
           unfold valuesOr. by rewrite HT.
    + apply generate_Exit in Hgen
        as (-> & -> & [(err & HT & ->)|
                       (values & HT & [(err & Hex & ->)|(buf & err & Hex & Hw & ->)])]);
        intros [= <- <- <-]; simpl.
      * simpl. by rewrite lookup_nil.
      * destruct i as [|i]; simpl; [|by rewrite lookup_nil].
        intros [= <-]. rewrite ?take_0. repeat split; [lia| |].
        -- constructor; [by exists values|constructor].
        -- simpl. unfold valuesOr. by rewrite HT.
      * rewrite executed_app, executed_formatWarnings. simpl.
        destruct i as [|i]; simpl; [|by rewrite lookup_nil].
        intros [= <-]. rewrite ?take_0. repeat split; [lia| |].
        -- constructor; [by exists values|constructor].
        -- simpl. unfold valuesOr. by rewrite HT.
Qed.

(** *** Runs of the loop that return *)

Lemma generateAll_Return pkg dir ts a fs a' fs' evs :
  generateAll env cl pkg dir a ts fs = (Return a', fs', evs) ↔
  Completes env cl pkg dir a fs ts a' fs' evs.
Proof.
  split.
  - revert a fs evs. induction ts as [|T ts IH]; intros a fs evs.
    + intros [= <- <- <-]. constructor.
    + rewrite generateAll_cons.
      destruct (generate env cl pkg dir a T fs) as [[[a1|code] fs1] evs1] eqn:Hgen; [|done].
      apply generate_Return in Hgen as (values & buf & HT & -> & Hex & Hw & -> & ->).
      destruct (generateAll env cl pkg dir _ ts _) as [[r2 fs2] evs2] eqn:Hall.
      intros [= -> <- <-]. apply IH in Hall.
      rewrite <- !app_assoc. by econstructor.
  - induction 1 as [a fs|a fs T ts values buf a' fs' evs HT Hex Hw _ IH]; [done|].
    rewrite generateAll_cons, generate_eq, HT. cbv zeta. rewrite Hex.
    fold (outputPath env cl dir T). rewrite Hw, IH. by rewrite <- !app_assoc.
Qed.

Lemma Completes_accumulate pkg dir a fs ts a' fs' evs :
  Completes env cl pkg dir a fs ts a' fs' evs → a' = accumulate env pkg a ts.
Proof.
  induction 1 as [|a fs T ts values buf a' fs' evs HT _ _ _ IH]; [done|].
  simpl. unfold valuesOr at 1. by rewrite HT.
Qed.

Lemma Completes_found pkg dir a fs ts a' fs' evs :
  Completes env cl pkg dir a fs ts a' fs' evs →
  Forall (λ T, ∃ values, ValuesOfType env pkg T = Ok values) ts.
Proof. induction 1; constructor; eauto. Qed.

Lemma Completes_analyzed pkg dir a fs ts a' fs' evs :
  Completes env cl pkg dir a fs ts a' fs' evs → analyzed evs = ts.
Proof.
  induction 1 as [|a fs T ts values buf a' fs' evs _ _ _ _ IH]; [done|].
  unfold analyzed in *. rewrite !omap_app. fold (analyzed (formatWarnings env buf)).
  rewrite analyzed_formatWarnings. simpl. by rewrite IH.
Qed.

Lemma Completes_executed pkg dir a fs ts a' fs' evs :
  Completes env cl pkg dir a fs ts a' fs' evs →
  length (executed evs) = length ts ∧
  Forall (λ ctx, ∃ buf, Execute env ctx = Ok buf) (executed evs).
Proof.
  induction 1 as [|a fs T ts values buf a' fs' evs _ Hex _ _ [IHl IHf]].
  - split; [done|constructor].
  - rewrite !executed_app, executed_formatWarnings. simpl. split; [by rewrite IHl|].
    constructor; [by exists buf|done].
Qed.

Lemma Completes_written pkg dir a fs ts a' fs' evs :
  Completes env cl pkg dir a fs ts a' fs' evs →
  (written evs).*1 = outputPath env cl dir <$> ts ∧
  writesSucceed env fs (written evs) ∧
  fs' = store fs (written evs).
Proof.
  induction 1 as [|a fs T ts values buf a' fs' evs _ _ Hw _ (IHp & IHs & IHf)].
  - by repeat split.
  - rewrite !written_app, written_formatWarnings.
    split; [|split].
    + simpl. f_equal. exact IHp.
    + simpl. by split.
    + simpl. exact IHf.
Qed.

Lemma Completes_fatal pkg dir a fs ts a' fs' evs :
  Completes env cl pkg dir a fs ts a' fs' evs → fatal evs = [].
Proof.
  induction 1 as [|a fs T ts values buf a' fs' evs _ _ _ _ IH]; [done|].
  unfold fatal in *. rewrite !omap_app. fold (fatal (formatWarnings env buf)).
  rewrite fatal_formatWarnings. simpl. by rewrite IH.
Qed.

(** *** Runs of the loop that exit *)

Lemma generateAll_Exit pkg dir ts a fs code fs' evs :
  generateAll env cl pkg dir a ts fs = (Exit code, fs', evs) →
  ∃ pre T post a1 evs1 evs2,
    ts = pre ++ T :: post ∧
    Completes env cl pkg dir a fs pre a1 fs' evs1 ∧
    generate env cl pkg dir a1 T fs' = (Exit code, fs', evs2) ∧
    evs = evs1 ++ evs2.
Proof.
  revert a fs evs. induction ts as [|T ts IH]; intros a fs evs; [done|].
  rewrite generateAll_cons.
  destruct (generate env cl pkg dir a T fs) as [[[a1|code1] fs1] evs1] eqn:Hgen.
  - destruct (generateAll env cl pkg dir a1 ts fs1) as [[r2 fs2] evs2] eqn:Hall.
    intros [= -> <- <-].
    destruct (IH _ _ _ Hall) as (pre & T' & post & a2 & evs3 & evs4 & -> & Hpre & Hgen' & ->).
    exists (T :: pre), T', post, a2, (evs1 ++ evs3), evs4.
    repeat split; [|done|by rewrite app_assoc].
    apply generateAll_Return. rewrite generateAll_cons, Hgen.
    apply generateAll_Return in Hpre. by rewrite Hpre.
  - intros [= <- <- <-].
    pose proof (generate_Exit _ _ _ _ _ _ _ _ Hgen) as (_ & -> & _).
    exists [], T, ts, a, [], evs1. repeat split; [constructor|done].
Qed.

End DriverFacts.

(** ** Properties of the library functions *)

Module StringFacts.
Import GoStrings.

Lemma append_cons c a b : String c a +:+ b = String c (a +:+ b).
Proof. reflexivity. Qed.

Lemma append_assoc a b c : (a +:+ b) +:+ c = a +:+ (b +:+ c).
Proof. induction a as [|x a IH]; [done|]. by rewrite !append_cons, IH. Qed.

Lemma length_append a b :
  String.length (a +:+ b) = (String.length a + String.length b)%nat.
Proof. induction a as [|x a IH]; [done|]. rewrite append_cons. simpl. by rewrite IH. Qed.

Lemma lowerASCII_append a b :
  Demo.lowerASCII (a +:+ b) = Demo.lowerASCII a +:+ Demo.lowerASCII b.
Proof. induction a as [|x a IH]; [done|]. rewrite append_cons. simpl. by rewrite IH. Qed.

Lemma Split_nonempty s sep : Split s sep ≠ [].
Proof.
  destruct s as [|c s]; simpl; [done|].
  case_decide; [done|]. by destruct (Split s sep).
Qed.

Lemma Split_append a b sep :
  Split (a +:+ String sep b) sep = Split a sep ++ Split b sep.
Proof.
  induction a as [|c a IH].
  - change ("" +:+ String sep b) with (String sep b). simpl.
    by rewrite decide_True.
  - rewrite append_cons. simpl. rewrite IH.
    destruct (decide (c = sep)); [done|].
    pose proof (Split_nonempty a sep). by destruct (Split a sep).
Qed.

Lemma Split_no_separator s sep : hasByte sep s = false → Split s sep = [s].
Proof.
  induction s as [|c s IH]; simpl; [done|].
  intros [Hc Hs]%orb_false_elim. apply bool_decide_eq_false in Hc.
  rewrite decide_False by done. by rewrite IH.
Qed.

Lemma Split_elements s sep : Forall (λ e, hasByte sep e = false) (Split s sep).
Proof.
  induction s as [|c s IH]; simpl; [by repeat constructor|].
  destruct (decide (c = sep)) as [->|Hne]; [by constructor|].
  pose proof (Split_nonempty s sep).
  destruct (Split s sep) as [|h t]; [done|].
  inversion IH as [|? ? Hh Ht]; subst. constructor; [|done].
  simpl. rewrite Hh. by rewrite bool_decide_eq_false_2.
Qed.

Lemma Split_Join es sep :
  es ≠ [] → Forall (λ e, hasByte sep e = false) es →
  Split (Join es (String sep "")) sep = es.
Proof.
  induction es as [|e es IH]; [done|]. intros _ Hes.
  inversion Hes as [|? ? He Hes']; subst.
  destruct es as [|e' es].
  - simpl. by apply Split_no_separator.
  - change (Join (e :: e' :: es) (String sep ""))
      with (e +:+ String sep "" +:+ Join (e' :: es) (String sep "")).
    change (String sep "" +:+ Join (e' :: es) (String sep ""))
      with (String sep (Join (e' :: es) (String sep ""))).
    rewrite Split_append, IH by done. by rewrite Split_no_separator.
Qed.

(** The name of the output file as the specification writes it. *)
Lemma output_outputName env cl T :
  keepsExtension env → output env cl T = outputName env cl T.
Proof.
  intros Hext. unfold output, outputName.
  rewrite <- (append_assoc _ (outputSuffix cl) ".go").
  rewrite <- (append_assoc (outputPrefix cl)).
  apply Hext.
Qed.

End StringFacts.

Module FilepathFacts.
Import GoStrings Filepath StringFacts.

Lemma cleanElements_snoc rooted out elems e :
  plain e →
  cleanElements rooted out (elems ++ [e]) = cleanElements rooted out elems ++ [e].
Proof.
  intros (He1 & He2 & He3). revert out.
  induction elems as [|x elems IH]; intros out; simpl.
  - rewrite decide_False by tauto. rewrite decide_False by done.
    simpl. by rewrite reverse_cons.
  - repeat case_decide; try apply IH.
    destruct out as [|top out]; [destruct rooted; apply IH|].
    case_decide; apply IH.
Qed.

Lemma cleanElements_plain rooted out elems :
  Forall plain elems → cleanElements rooted out elems = reverse out ++ elems.
Proof.
  intros Hel. revert out. induction Hel as [|x elems (Hx1 & Hx2 & Hx3) _ IH]; intros out.
  - simpl. by rewrite app_nil_r.
  - simpl. rewrite decide_False by tauto. rewrite decide_False by done.
    rewrite IH, reverse_cons. by rewrite <- app_assoc.
Qed.

(** The elements of a cleaned rooted path are plain and were elements of
    the path before. *)
Lemma cleanElements_rooted out elems :
  Forall plain out →
  Forall plain (cleanElements true out elems) ∧
  ∀ e, e ∈ cleanElements true out elems → e ∈ out ∨ e ∈ elems.
Proof.
  revert out. induction elems as [|x elems IH]; intros out Hout; simpl.
  - split; [by apply Forall_reverse|]. intros e. rewrite elem_of_reverse. tauto.
  - assert (∀ o, Forall plain o →
              Forall plain (cleanElements true o elems) ∧
              ∀ e, e ∈ cleanElements true o elems → e ∈ o ∨ e ∈ x :: elems) as IH'.
    { intros o Ho. destruct (IH o Ho) as [H1 H2]. split; [done|].
      intros e He. destruct (H2 e He); [by left|right; by apply elem_of_cons; right]. }
    assert (∀ o, (∀ e, e ∈ o → e ∈ out ∨ e ∈ x :: elems) → Forall plain o →
              Forall plain (cleanElements true o elems) ∧
              ∀ e, e ∈ cleanElements true o elems → e ∈ out ∨ e ∈ x :: elems) as IH''.
    { intros o Hsub Ho. destruct (IH' o Ho) as [H1 H2]. split; [done|].
      intros e He. destruct (H2 e He) as [?|?]; [by apply Hsub|by right]. }
    case_decide as Hx; [by apply IH'|].
    case_decide as Hdd.
    + destruct out as [|top out]; [by apply IH'|].
      inversion Hout as [|? ? (_ & _ & Htop) Hout']; subst.
      rewrite decide_False by done.
      apply IH''; [|done]. intros e He. left. by apply elem_of_cons; right.
    + apply IH''.
      * intros e [->|He]%elem_of_cons; [right; by apply elem_of_cons; left|by left].
      * constructor; [|done]. unfold plain. tauto.
Qed.

Lemma IsAbs_append dir s : IsAbs dir = true → IsAbs (dir +:+ s) = true.
Proof. by destruct dir. Qed.

(** A name without separator that is none of "", "." and ".." is joined
    to a rooted directory as its last element. *)
Lemma Join_elements dir name :
  IsAbs dir = true → hasByte Separator name = false → plain name →
  IsAbs (Join dir name) = true ∧
  elements (Join dir name) = elements dir ++ [name].
Proof.
  intros Habs Hsep Hplain. unfold Join.
  rewrite decide_False by (by destruct dir).
  unfold Clean. rewrite (IsAbs_append dir _ Habs).
  change (dir +:+ "/" +:+ name) with (dir +:+ String Separator name).
  rewrite Split_append, (Split_no_separator name) by done.
  rewrite cleanElements_snoc by done.
  split; [done|].
  destruct (cleanElements_rooted [] (Split dir Separator)) as [Hpl Hin]; [constructor|].
  unfold elements. rewrite Habs.
  set (E := cleanElements true [] (Split dir Separator)) in *.
  change ("/" +:+ GoStrings.Join (E ++ [name]) "/")
    with ("" +:+ String Separator (GoStrings.Join (E ++ [name]) (String Separator ""))).
  rewrite Split_append. simpl IsAbs.
  rewrite Split_Join.
  - simpl. rewrite cleanElements_plain; [done|].
    apply Forall_app. split; [done|]. constructor; [done|constructor].
  - by destruct E.
  - apply Forall_app. split; [|constructor; [done|constructor]].
    apply Forall_forall. intros e He.
    destruct (Hin e He) as [?%elem_of_nil|He']; [done|].
    pose proof (Split_elements dir Separator) as Hall.
    rewrite Forall_forall in Hall. by apply Hall.
Qed.

(** A name that ends in ".go" is plain. *)
Lemma plain_go s : plain (s +:+ ".go").
Proof.
  assert (3 ≤ String.length (s +:+ ".go"))%nat as Hlen.
  { rewrite length_append. simpl. lia. }
  unfold plain. repeat split; intros Heq; rewrite Heq in Hlen; simpl in Hlen; lia.
Qed.

End FilepathFacts.

(** ** Files after a sequence of writes *)

Lemma store_snoc (fs : gmap string string) ws w :
  store fs (ws ++ [w]) = <[w.1 := w.2]> (store fs ws).
Proof. unfold store. by rewrite foldl_app. Qed.

Lemma store_union (fs : gmap string string) ws :
  store fs ws = list_to_map (reverse ws) ∪ fs.
Proof.
  induction ws as [|w ws IH] using rev_ind.
  - simpl. by rewrite (left_id_L ∅ (∪)).
  - rewrite store_snoc, IH, reverse_app. simpl.
    by rewrite insert_union_l.
Qed.

Lemma store_lookup_written (fs : gmap string string) ws p :
  p ∈ ws.*1 →
  store fs ws !! p = (list_to_map (reverse ws) : gmap string string) !! p ∧
  is_Some (store fs ws !! p).
Proof.
  intros Hp. rewrite store_union.
  assert (is_Some ((list_to_map (reverse ws) : gmap string string) !! p)) as [s Hs].
  { apply elem_of_dom. rewrite dom_list_to_map_L. apply elem_of_list_to_set.
    rewrite fmap_reverse. by apply elem_of_reverse. }
  rewrite (lookup_union_Some_l _ _ _ _ Hs). rewrite Hs. split; [done|by eexists].
Qed.

(** ** Reading off a run *)

Lemma run_outcome {A B C} (x : A * B * C) (a : A) : x.1.1 = a → x = (a, x.1.2, x.2).
Proof. destruct x as [[? ?] ?]. simpl. by intros ->. Qed.

Lemma run_parts {A B C} (x : A * B * C) : x = (x.1.1, x.1.2, x.2).
Proof. by destruct x as [[? ?] ?]. Qed.

(** ** The analyzer and the generated methods: main results *)

Section AnalyzerResults.
Import Parser ParserFacts Generated GeneratedFacts.

(** C1: for every value that several constants of a type resolve to, the
    canonical name that ValuesOfType selects is the lexicographically
    smallest of the names of all entries sharing the value, whatever the
    order of their declaration: the name paired with a value in the table
    names an entry of that value and is below the name of every entry of
    that value; every resolved value has exactly one name in the table; and
    the same constants declared in another order give the same pairs. *)
Theorem C1_canonical_name_is_smallest pkg typeName table :
  ValueTableOf pkg typeName = Ok table →
  ∃ rs,
    resolveType pkg typeName = Ok rs ∧
    (∀ n v, (n, v) ∈ table →
       {| name := n; value := v |} ∈ rs ∧
       ∀ n', {| name := n'; value := v |} ∈ rs → String.le n n') ∧
    (∀ r, r ∈ rs →
       ∃ n, (n, value r) ∈ table ∧ ∀ n', (n', value r) ∈ table → n' = n) ∧
    (∀ rs', rs' ≡ₚ rs → ∀ n v, (n, v) ∈ valueTable rs' ↔ (n, v) ∈ table).
Proof.
  intros Htable.
  destruct (ValueTableOf_inv _ _ _ Htable) as (rs & Hrs & _ & ->).
  exists rs. split; [done|]. split; [|split].
  - intros n v [Hv ->]%valueTable_spec.
    destruct (canonicalName_smallest rs v Hv) as [Hin Hle]. split.
    + by apply elem_of_namesOf.
    + intros n' Hn'. apply Hle. by apply elem_of_namesOf.
  - intros r Hr.
    assert (value r ∈ value <$> rs) as Hv.
    { apply list_elem_of_fmap. by exists r. }
    exists (canonicalName rs (value r)). split.
    + by apply valueTable_spec.
    + by intros n' [_ ->]%valueTable_spec.
  - intros rs' Hp n v. rewrite !valueTable_spec.
    rewrite (canonicalName_Permutation rs' rs v Hp). by rewrite Hp.
Qed.

Lemma C1_witness :
  ValueTableOf painkiller "Pill" = Ok Demo.pillTable ∧
  ∃ rs,
    resolveType painkiller "Pill" = Ok rs ∧
    (∀ n v, (n, v) ∈ Demo.pillTable →
       {| name := n; value := v |} ∈ rs ∧
       ∀ n', {| name := n'; value := v |} ∈ rs → String.le n n') ∧
    (∀ r, r ∈ rs →
       ∃ n, (n, value r) ∈ Demo.pillTable ∧
            ∀ n', (n', value r) ∈ Demo.pillTable → n' = n) ∧
    (∀ rs', rs' ≡ₚ rs → ∀ n v, (n, v) ∈ valueTable rs' ↔ (n, v) ∈ Demo.pillTable).
Proof.
  split; [vm_compute; reflexivity|].
  apply (C1_canonical_name_is_smallest painkiller "Pill"). vm_compute. reflexivity.
Defined.


(** C9: in a generated mapping (a value table whose names are pairwise
    distinct), serializing the value of a pair and deserializing the
    resulting token gives the value back, and deserializing the token of a
    name that is not in the mapping fails with the invalid value
    condition. *)
Theorem C9_round_trip pkg typeName table :
  ValueTableOf pkg typeName = Ok table →
  NoDup table.*1 →
  (∀ n v, (n, v) ∈ table →
     ∃ token, MarshalYAML table v = Ok token ∧ token = quote n ∧
              UnmarshalYAML table token = Ok v) ∧
  (∀ n, n ∉ table.*1 → UnmarshalYAML table (quote n) = Err InvalidValue).
Proof.
  intros Htable Hnames.
  destruct (ValueTableOf_inv _ _ _ Htable) as (rs & _ & _ & ->).
  split.
  - intros n v Hin. exists (quote n). unfold MarshalYAML, UnmarshalYAML.
    rewrite (valueToName_lookup _ n v); [|rewrite valueTable_values; apply NoDup_firstSeen|done].
    rewrite unquote_quote, (nameToValue_lookup _ n v) by done. done.
  - intros n Hn. unfold UnmarshalYAML.
    by rewrite unquote_quote, nameToValue_unknown.
Qed.

Lemma C9_witness :
  ValueTableOf painkiller "Pill" = Ok Demo.pillTable ∧
  NoDup Demo.pillTable.*1 ∧
  (∀ n v, (n, v) ∈ Demo.pillTable →
     ∃ token, MarshalYAML Demo.pillTable v = Ok token ∧ token = quote n ∧
              UnmarshalYAML Demo.pillTable token = Ok v) ∧
  (∀ n, n ∉ Demo.pillTable.*1 →
     UnmarshalYAML Demo.pillTable (quote n) = Err InvalidValue).
Proof.
  assert (NoDup Demo.pillTable.*1) as Hnames.
  { refine (bool_decide_unpack _ _). vm_compute. exact I. }
  split; [reflexivity|]. split; [exact Hnames|].
  apply (C9_round_trip painkiller "Pill"); [reflexivity|exact Hnames].
Defined.

End AnalyzerResults.

(** ** The driver: main results *)

Section MainFacts.

Context (env : Collaborators) (cl : CommandLine).

Implicit Types (pkg : Package env) (a : Analysis) (fs : gmap string string).
Implicit Types (evs : list (Event env)).

(** A run either stops before the loop with one fatal line, or is the run
    of the loop over the requested types. *)
Lemma main_inv fs r fs' evs :
  main env cl fs = (r, fs', evs) →
  (∃ m, r = Exit 1 ∧ fs' = fs ∧ evs = [LogFatalf m] ∧ ¬ isFormatWarning m) ∨
  (typeNames cl ≠ "" ∧ (length (flagArgs cl) ≤ 1)%nat ∧
   ∃ dir pkg r',
     Abs env (requestedDir cl) = Ok dir ∧
     ParsePackage env fs dir = Ok pkg ∧
     generateAll env cl pkg dir (analysis env cl pkg) (types cl) fs = (r', fs', evs) ∧
     r = match r' with
         | Return _ => Return tt
         | Exit code => Exit code
         end).
Proof.
  rewrite main_eq.
  case_decide as Htn; [intros [= <- <- <-]; left; eexists; repeat split; intros []|].
  case_decide as Hargs; [intros [= <- <- <-]; left; eexists; repeat split; intros []|].
  destruct (Abs env (requestedDir cl)) as [dir|err] eqn:Habs;
    [|intros [= <- <- <-]; left; eexists; repeat split; intros []].
  destruct (ParsePackage env fs dir) as [pkg|err] eqn:Hparse;
    [|intros [= <- <- <-]; left; eexists; repeat split; intros []].
  destruct (generateAll env cl pkg dir _ _ fs) as [[[a'|code] fs1] evs1] eqn:Hall;
    intros [= <- <- <-]; right; (split; [done|]); (split; [lia|]).
  - by exists dir, pkg, (Return a').
  - by exists dir, pkg, (Exit code).
Qed.

Lemma main_Return fs fs' evs :
  main env cl fs = (Return tt, fs', evs) →
  typeNames cl ≠ "" ∧ (length (flagArgs cl) ≤ 1)%nat ∧
  ∃ dir pkg a',
    Abs env (requestedDir cl) = Ok dir ∧
    ParsePackage env fs dir = Ok pkg ∧
    Completes env cl pkg dir (analysis env cl pkg) fs (types cl) a' fs' evs.
Proof.
  intros [(m & [=] & _)|(Htn & Hargs & dir & pkg & r' & Habs & Hparse & Hall & Hr)]%main_inv.
  destruct r' as [a'|code]; [|done].
  repeat split; [done..|]. exists dir, pkg, a'. repeat split; [done..|].
  by apply generateAll_Return.
Qed.

Lemma main_loop fs dir pkg :
  typeNames cl ≠ "" → (length (flagArgs cl) ≤ 1)%nat →
  Abs env (requestedDir cl) = Ok dir →
  ParsePackage env fs dir = Ok pkg →
  main env cl fs =
  match generateAll env cl pkg dir (analysis env cl pkg) (types cl) fs with
  | (Return _, fs', evs) => (Return tt, fs', evs)
  | (Exit code, fs', evs) => (Exit code, fs', evs)
  end.
Proof.
  intros Htn Hargs Habs Hparse. rewrite main_eq.
  rewrite decide_False by done. rewrite decide_False by lia.
  by rewrite Habs, Hparse.
Qed.

Lemma warnings_app evs1 evs2 : warnings (evs1 ++ evs2) = warnings evs1 ++ warnings evs2.
Proof. apply omap_app. Qed.

Lemma warnings_formatWarnings buf :
  Forall isFormatWarning (warnings (formatWarnings env buf)).
Proof. unfold formatWarnings. destruct (Source env buf); by repeat constructor. Qed.

Lemma Completes_warnings pkg dir a fs ts a' fs' evs :
  Completes env cl pkg dir a fs ts a' fs' evs → Forall isFormatWarning (warnings evs).
Proof.
  induction 1 as [|a fs T ts values buf a' fs' evs _ _ _ _ IH]; [constructor|].
  rewrite !warnings_app. simpl. apply Forall_app. split; [|done].
  apply warnings_formatWarnings.
Qed.

Lemma generate_Exit_events pkg dir a T fs code fs' evs :
  generate env cl pkg dir a T fs = (Exit code, fs', evs) →
  Forall isFormatWarning (warnings evs) ∧
  ∃ m, last evs = Some (LogFatalf m) ∧ ¬ isFormatWarning m.
Proof.
  intros (_ & _ & [(err & _ & ->)|(values & _ & [(err & _ & ->)|(buf & err & _ & _ & ->)])])
    %generate_Exit.
  - split; [constructor|]. eexists. split; [done|intros []].
  - split; [constructor|]. eexists. split; [done|intros []].
  - split.
    + rewrite !warnings_app. simpl. rewrite app_nil_r. apply warnings_formatWarnings.
    + exists (WritingOutput err). split; [|intros []]. rewrite !app_assoc.
      change [CallWriteFile (Filepath.Join dir (output env cl T)) (formatted env buf);
              LogFatalf (WritingOutput err)]
        with ([CallWriteFile (Filepath.Join dir (output env cl T)) (formatted env buf)]
              ++ [LogFatalf (WritingOutput err)] : list (Event env)).
      rewrite app_assoc. apply last_snoc.
Qed.

End MainFacts.

(** ** The shape of a run *)

Section RunShape.

Context (env : Collaborators) (cl : CommandLine).

Implicit Types (pkg : Package env) (a : Analysis) (fs : gmap string string).
Implicit Types (evs : list (Event env)).

Lemma analyzed_app evs1 evs2 : analyzed (evs1 ++ evs2) = analyzed evs1 ++ analyzed evs2.
Proof. apply omap_app. Qed.

Lemma fatal_app evs1 evs2 : fatal (evs1 ++ evs2) = fatal evs1 ++ fatal evs2.
Proof. apply omap_app. Qed.

(** A run of the loop is a completed loop, or a completed loop over the
    types before one whose iteration exits. *)
Lemma generateAll_shape pkg dir ts a fs r fs' evs :
  generateAll env cl pkg dir a ts fs = (r, fs', evs) →
  (∃ a', r = Return a' ∧ Completes env cl pkg dir a fs ts a' fs' evs) ∨
  (∃ pre T post a1 evs1 evs2,
     r = Exit 1 ∧ ts = pre ++ T :: post ∧
     Completes env cl pkg dir a fs pre a1 fs' evs1 ∧
     generate env cl pkg dir a1 T fs' = (Exit 1, fs', evs2) ∧
     evs = evs1 ++ evs2).
Proof.
  destruct r as [a'|code]; intros Hall.
  - left. exists a'. split; [done|]. by apply generateAll_Return.
  - right. apply generateAll_Exit in Hall
      as (pre & T & post & a1 & evs1 & evs2 & -> & Hpre & Hgen & ->).
    pose proof (generate_Exit _ _ _ _ _ _ _ _ _ _ Hgen) as (-> & _ & _).
    by exists pre, T, post, a1, evs1, evs2.
Qed.

(** What the events of an exiting iteration contain. *)
Lemma generate_Exit_calls pkg dir a T fs code fs' evs :
  generate env cl pkg dir a T fs = (Exit code, fs', evs) →
  analyzed evs = [T] ∧
  (executed evs = [] ∧ written evs = [] ∨
   ∃ values, ValuesOfType env pkg T = Ok values ∧
     executed evs = [setValues a T values] ∧
     (written evs = [] ∨
      ∃ buf, Execute env (setValues a T values) = Ok buf ∧
             written evs = [(outputPath env cl dir T, formatted env buf)])) ∧
  (∃ m, fatal evs = [m]).
Proof.
  intros (_ & _ & [(err & _ & ->)|(values & HT & [(err & _ & ->)|(buf & err & Hex & _ & ->)])])
    %generate_Exit.
  - split; [done|]. split; [by left|by eexists].
  - split; [done|]. split; [|by eexists]. right. exists values. repeat split; [done|by left].
  - rewrite !analyzed_app, !executed_app, !written_app, !fatal_app.
    rewrite analyzed_formatWarnings, executed_formatWarnings, written_formatWarnings,
      fatal_formatWarnings. simpl.
    split; [done|]. split; [|by eexists]. right. exists values. repeat split; [done|].
    right. by exists buf.
Qed.

(** The i-th write of a run of the loop is the rendering of the i-th
    context, formatted when go/format accepts it, at the path of the i-th
    type. *)
Lemma generateAll_written pkg dir ts a fs r fs' evs i p src :
  generateAll env cl pkg dir a ts fs = (r, fs', evs) →
  written evs !! i = Some (p, src) →
  ∃ T ctx buf,
    ts !! i = Some T ∧ executed evs !! i = Some ctx ∧
    Execute env ctx = Ok buf ∧
    p = outputPath env cl dir T ∧ src = formatted env buf.
Proof.
  revert a fs r fs' evs i. induction ts as [|T ts IH]; intros a fs r fs' evs i.
  - intros [= <- <- <-]. simpl. by rewrite lookup_nil.
  - rewrite generateAll_cons.
    destruct (generate env cl pkg dir a T fs) as [[[a1|code] fs1] evs1] eqn:Hgen.
    + apply generate_Return in Hgen as (values & buf & HT & -> & Hex & Hw & -> & ->).
      destruct (generateAll env cl pkg dir _ ts _) as [[r2 fs2] evs2] eqn:Hall.
      intros [= <- <- <-]. simpl.
      rewrite !written_app, !executed_app, written_formatWarnings, executed_formatWarnings.
      simpl. destruct i as [|i]; simpl.
      * intros [= <- <-]. by exists T, (setValues a T values), buf.
      * intros Hi. destruct (IH _ _ _ _ _ _ Hall Hi) as (T' & ctx & buf' & ? & ? & ? & ? & ?).
        by exists T', ctx, buf'.
    + intros [= <- <- <-].
      destruct (generate_Exit_calls _ _ _ _ _ _ _ _ Hgen)
        as (_ & [[_ ->]|(values & _ & Hexd & [->|(buf & Hex & ->)])] & _);
        try (simpl; by rewrite lookup_nil).
      rewrite Hexd. destruct i as [|i]; simpl; [|by rewrite lookup_nil].
      intros [= <- <-]. by exists T, (setValues a T values), buf.
Qed.





End RunShape.





(** C5: when the flag -type is missing or empty, or more than one directory
    is given, the run logs one fatal line and exits with status 1; no
    collaborator is called and the files are left as they were. *)
Theorem C5_usage_error env cl fs :
  typeNames cl = "" ∨ (1 < length (flagArgs cl))%nat →
  ∃ m, (m = TypeFlagMustBeSet ∨ m = OnlyOneDirectory) ∧
       main env cl fs = (Exit 1, fs, [LogFatalf m]).
Proof.
  intros Husage. rewrite main_eq.
  destruct (decide (typeNames cl = "")) as [Htn|Htn].
  - exists TypeFlagMustBeSet. split; [by left|done].
  - destruct Husage as [?|Hargs]; [done|].
    rewrite decide_True by done.
    exists OnlyOneDirectory. split; [by right|done].
Qed.

Lemma C5_witness :
  (typeNames Demo.untyped = "" ∨ (1 < length (flagArgs Demo.untyped))%nat) ∧
  ∃ m, (m = TypeFlagMustBeSet ∨ m = OnlyOneDirectory) ∧
       main Demo.env Demo.untyped ∅ = (Exit 1, ∅, [LogFatalf m]).
Proof.
  split; [left; reflexivity|].
  apply (C5_usage_error Demo.env Demo.untyped ∅). left. reflexivity.
Defined.

(** C6: the types are processed one after the other, each analyzed,
    rendered and written before the next is attempted: a run that returns
    is the completed loop over the requested types.  When the analyzer
    fails for the k-th type, the run logs the failure and exits with status
    1 right after the analyzer was called for that type: nothing is written
    for it or for a later type, and the files written for the types before
    it stay as they were written. *)
Theorem C6_abort_at_failing_type env cl fs dir pkg :
  typeNames cl ≠ "" → (length (flagArgs cl) ≤ 1)%nat →
  Abs env (requestedDir cl) = Ok dir →
  ParsePackage env fs dir = Ok pkg →
  (∀ fs' evs,
     main env cl fs = (Return tt, fs', evs) →
     ∃ a', Completes env cl pkg dir (analysis env cl pkg) fs (types cl) a' fs' evs) ∧
  (∀ pre Tk post err a1 fs1 evs1,
     types cl = pre ++ Tk :: post →
     generateAll env cl pkg dir (analysis env cl pkg) pre fs = (Return a1, fs1, evs1) →
     ValuesOfType env pkg Tk = Err err →
     main env cl fs
       = (Exit 1, fs1, evs1 ++ [CallValuesOfType Tk; LogFatalf (FindingValues Tk err)]) ∧
     Completes env cl pkg dir (analysis env cl pkg) fs pre a1 fs1 evs1 ∧
     analyzed evs1 = pre ∧
     (written evs1).*1 = outputPath env cl dir <$> pre ∧
     written (evs1 ++ [CallValuesOfType Tk; LogFatalf (FindingValues Tk err)])
       = written evs1 ∧
     fs1 = store fs (written evs1)).
Proof.
  intros Htn Hargs Habs Hparse. split.
  - intros fs' evs Hmain. rewrite (main_loop env cl fs dir pkg) in Hmain by done.
    destruct (generateAll env cl pkg dir _ (types cl) fs) as [[[a'|code] fs1] evs1] eqn:Hall;
      [|done].
    injection Hmain as <- <-. exists a'. by apply generateAll_Return.
  - intros pre Tk post err a1 fs1 evs1 Htypes Hpre HTk.
    pose proof (proj1 (generateAll_Return _ _ _ _ _ _ _ _ _ _) Hpre) as Hrun.
    destruct (Completes_written _ _ _ _ _ _ _ _ _ _ Hrun) as (Hpaths & _ & Hfs).
    split; [|split; [done|split; [by eapply Completes_analyzed|split; [done|split; [|done]]]]].
    + rewrite (main_loop env cl fs dir pkg) by done.
      rewrite Htypes, generateAll_app, Hpre, generateAll_cons, generate_eq, HTk. done.
    + rewrite written_app. simpl. by rewrite app_nil_r.
Qed.

Lemma C6_witness :
  let loop := generateAll Demo.env Demo.pillAndColour Demo.clinic "/src/clinic"
                (analysis Demo.env Demo.pillAndColour Demo.clinic) ["Pill"] ∅ in
  types Demo.pillAndColour = ["Pill"] ++ "Colour" :: ["Color"] ∧
  ValuesOfType Demo.env Demo.clinic "Colour" = Err (Parser.TypeNotFoundError "Colour") ∧
  (∃ a1, loop = (Return a1, loop.1.2, loop.2)) ∧
  main Demo.env Demo.pillAndColour ∅
    = (Exit 1, loop.1.2,
       loop.2 ++ [CallValuesOfType "Colour";
                  LogFatalf (FindingValues (env:=Demo.env) "Colour"
                               (Parser.TypeNotFoundError "Colour"))]) ∧
  (written loop.2).*1 = ["/src/clinic/pill_yamlenums.go"].
Proof.
  intros loop.
  assert (loop = (Return (setValues (analysis Demo.env Demo.pillAndColour Demo.clinic)
                            "Pill" ["Placebo"; "Aspirin"; "Ibuprofen"; "Acetaminophen"]),
                  loop.1.2, loop.2)) as Hloop.
  { apply run_outcome. vm_compute. reflexivity. }
  split; [reflexivity|]. split; [reflexivity|]. split; [by eexists|].
  destruct (C6_abort_at_failing_type Demo.env Demo.pillAndColour ∅
              "/src/clinic" Demo.clinic) as [_ Habort].
  - vm_compute. discriminate.
  - vm_compute. lia.
  - reflexivity.
  - reflexivity.
  - destruct (Habort ["Pill"] "Colour" ["Color"] (Parser.TypeNotFoundError "Colour")
                _ _ _ eq_refl Hloop eq_refl) as (Hmain & _ & _ & Hpaths & _).
    split; [exact Hmain|]. rewrite Hpaths. reflexivity.
Defined.

(** C7: when go/format rejects the generated text of a type, two warnings
    are logged, the unformatted text is written to the output file and the
    iteration returns.  Nothing else is logged as a warning: a run that
    returns has met no other error (the flags, the directory, the package,
    every requested type, every rendering and every write were in order),
    and a run that exits does so with status 1 on a fatal line. *)
Theorem C7_format_failure_is_a_warning env cl :
  (∀ pkg dir a T fs values buf err,
     ValuesOfType env pkg T = Ok values →
     Execute env (setValues a T values) = Ok buf →
     Source env buf = Err err →
     writeError env fs (outputPath env cl dir T) buf = None →
     generate env cl pkg dir a T fs
       = (Return (setValues a T values),
          <[outputPath env cl dir T := buf]> fs,
          [CallValuesOfType T; CallExecute (setValues a T values);
           LogPrintf (InvalidGoGenerated err); LogPrintf CompileThePackage;
           CallWriteFile (outputPath env cl dir T) buf])) ∧
  (∀ fs r fs' evs,
     main env cl fs = (r, fs', evs) →
     Forall isFormatWarning (warnings evs) ∧
     match r with
     | Return _ =>
         fatal evs = [] ∧
         typeNames cl ≠ "" ∧ (length (flagArgs cl) ≤ 1)%nat ∧
         ∃ dir pkg,
           Abs env (requestedDir cl) = Ok dir ∧
           ParsePackage env fs dir = Ok pkg ∧
           Forall (λ T, ∃ values, ValuesOfType env pkg T = Ok values) (types cl) ∧
           Forall (λ ctx, ∃ buf, Execute env ctx = Ok buf) (executed evs) ∧
           writesSucceed env fs (written evs)
     | Exit code =>
         code = 1 ∧ ∃ m, last evs = Some (LogFatalf m) ∧ ¬ isFormatWarning m
     end).
Proof.
  split.
  - intros pkg dir a T fs values buf err HT Hex Hsrc Hw.
    rewrite generate_eq, HT. cbv zeta. rewrite Hex.
    unfold formatted, formatWarnings. rewrite Hsrc.
    fold (outputPath env cl dir T). by rewrite Hw.
  - intros fs r fs' evs Hmain.
    destruct r as [[]|code].
    + apply main_Return in Hmain as (Htn & Hargs & dir & pkg & a' & Habs & Hparse & Hrun).
      split; [by eapply Completes_warnings|].
      split; [by eapply Completes_fatal|].
      do 2 (split; [done|]). exists dir, pkg. do 2 (split; [done|]).
      split; [by eapply Completes_found|].
      split; [by eapply Completes_executed|].
      by eapply Completes_written.
    + apply main_inv in Hmain
        as [(m & [= ->] & _ & -> & Hm)|(_ & _ & dir & pkg & r' & _ & _ & Hall & Hr)].
      { split; [constructor|]. split; [done|]. by exists m. }
      destruct r' as [a'|code']; [done|]. injection Hr as ->.
      apply generateAll_Exit in Hall
        as (pre & T & post & a1 & evs1 & evs2 & _ & Hpre & Hgen & ->).
      pose proof (generate_Exit _ _ _ _ _ _ _ _ _ _ Hgen) as (-> & _ & _).
      apply generate_Exit_events in Hgen as (Hwarn & m & Hlast & Hm).
      split; [|split; [done|]].
      * rewrite warnings_app. apply Forall_app. split; [|done].
        by eapply Completes_warnings.
      * exists m. split; [|done].
        apply last_Some in Hlast as [evs2' ->]. rewrite app_assoc. apply last_snoc.
Qed.

Lemma C7_witness :
  let a := setValues (analysis Demo.unformattable Demo.pill Parser.painkiller) "Pill"
             ["Placebo"; "Aspirin"; "Ibuprofen"; "Acetaminophen"] in
  let buf := Demo.render a in
  Execute Demo.unformattable a = Ok buf ∧
  Source Demo.unformattable buf = Err (Parser.ParseError "expected declaration") ∧
  generate Demo.unformattable Demo.pill Parser.painkiller "/src/painkiller"
      (analysis Demo.unformattable Demo.pill Parser.painkiller) "Pill" ∅
    = (Return a,
       {[ "/src/painkiller/pill_yamlenums.go" := buf ]},
       [CallValuesOfType "Pill"; CallExecute a;
        LogPrintf (InvalidGoGenerated (env:=Demo.unformattable)
                     (Parser.ParseError "expected declaration"));
        LogPrintf CompileThePackage;
        CallWriteFile "/src/painkiller/pill_yamlenums.go" buf]) ∧
  main Demo.unformattable Demo.pill ∅
    = (Return tt, (main Demo.unformattable Demo.pill ∅).1.2,
       (main Demo.unformattable Demo.pill ∅).2) ∧
  Forall isFormatWarning (warnings (main Demo.unformattable Demo.pill ∅).2) ∧
  fatal (main Demo.unformattable Demo.pill ∅).2 = [].
Proof.
  intros a buf.
  destruct (C7_format_failure_is_a_warning Demo.unformattable Demo.pill) as [Hgen Hmain].
  assert (main Demo.unformattable Demo.pill ∅
          = (Return tt, (main Demo.unformattable Demo.pill ∅).1.2,
             (main Demo.unformattable Demo.pill ∅).2)) as Hrun.
  { apply run_outcome. vm_compute. reflexivity. }
  split; [reflexivity|]. split; [reflexivity|]. split.
  - apply (Hgen Parser.painkiller "/src/painkiller" _ "Pill" ∅
             ["Placebo"; "Aspirin"; "Ibuprofen"; "Acetaminophen"] buf
             (Parser.ParseError "expected declaration")); reflexivity.
  - split; [exact Hrun|].
    destruct (Hmain ∅ _ _ _ Hrun) as (Hwarn & Hfatal & _).
    split; [exact Hwarn|exact Hfatal].
Defined.

(** C4: the run yamlenums -prefix=../ -type=Pill in /src/painkiller,
    evaluated: the name of the output file is "../pill_yamlenums.go", that
    is lowercase(prefix + T + suffix) + ".go", and the run returns after
    writing the file at the path joined from the scanned directory and that
    name, /src/pill_yamlenums.go: an entry of /src, while the scanned
    directory /src/painkiller receives no file. *)
Theorem C4_prefix_leaves_directory :
  let run := main Demo.env Demo.escaping ∅ in
  run.1.1 = Return tt ∧
  Abs Demo.env (requestedDir Demo.escaping) = Ok "/src/painkiller" ∧
  output Demo.env Demo.escaping "Pill" = "../pill_yamlenums.go" ∧
  (written run.2).*1 = ["/src/pill_yamlenums.go"] ∧
  is_Some (run.1.2 !! "/src/pill_yamlenums.go") ∧
  run.1.2 !! "/src/painkiller/pill_yamlenums.go" = None ∧
  Filepath.elements "/src/painkiller" = ["src"; "painkiller"] ∧
  Filepath.elements "/src/pill_yamlenums.go" = ["src"; "pill_yamlenums.go"].
Proof.
  intros run.
  split; [vm_compute; reflexivity|]. split; [vm_compute; reflexivity|].
  split; [vm_compute; reflexivity|]. split; [vm_compute; reflexivity|].
  split; [vm_compute; by eexists|].
  repeat split; vm_compute; reflexivity.
Qed.

(** ** Further properties of the driver *)

Lemma store_lookup_other (fs : gmap string string) ws p :
  p ∉ ws.*1 → store fs ws !! p = fs !! p.
Proof.
  intros Hp. rewrite store_union. apply lookup_union_r.
  apply not_elem_of_list_to_map_1. rewrite fmap_reverse. by rewrite elem_of_reverse.
Qed.

Lemma store_keeps (fs : gmap string string) ws p :
  is_Some (fs !! p) → is_Some (store fs ws !! p).
Proof. intros Hp. rewrite store_union. apply lookup_union_is_Some. by right. Qed.


Module MoreStringFacts.
Import GoStrings StringFacts.

Lemma Join_cons_byte c h t sep : Join (String c h :: t) sep = String c (Join (h :: t) sep).
Proof. by destruct t. Qed.

(** Joining what Split returns gives the string back. *)
Lemma Join_Split s sep : Join (Split s sep) (String sep "") = s.
Proof.
  induction s as [|c s IH]; [done|]. simpl.
  pose proof (Split_nonempty s sep) as Hne.
  destruct (decide (c = sep)) as [->|Hc].
  - destruct (Split s sep) as [|h t] eqn:Hs; [done|].
    change (Join ("" :: h :: t) (String sep ""))
      with ("" +:+ String sep "" +:+ Join (h :: t) (String sep "")).
    by rewrite IH.
  - destruct (Split s sep) as [|h t] eqn:Hs; [done|].
    by rewrite Join_cons_byte, IH.
Qed.

(** Split of a string that ends in ".go": the last piece ends in ".go". *)
Lemma Split_go x :
  ∃ init stem,
    Split (x +:+ ".go") Filepath.Separator = init ++ [stem +:+ ".go"].
Proof.
  induction x as [|c x (init & stem & IH)].
  - by exists [], "".
  - rewrite append_cons. simpl. rewrite IH.
    destruct (decide (c = Filepath.Separator)) as [->|Hc].
    + by exists ("" :: init), stem.
    + destruct init as [|h t].
      * by exists [], (String c stem).
      * by exists (String c h :: t), stem.
Qed.

End MoreStringFacts.

Module MoreFilepathFacts.
Import GoStrings Filepath StringFacts FilepathFacts MoreStringFacts.

(** Joining any name to a rooted directory gives a rooted path whose
    elements are the cleaned elements of the directory followed by those of
    the name. *)
Lemma Join_rooted dir name :
  IsAbs dir = true →
  IsAbs (Join dir name) = true ∧
  elements (Join dir name)
  = cleanElements true [] (Split dir Separator ++ Split name Separator).
Proof.
  intros Habs. unfold Join.
  rewrite decide_False by (by destruct dir).
  unfold Clean. rewrite (IsAbs_append dir _ Habs).
  change (dir +:+ "/" +:+ name) with (dir +:+ String Separator name).
  rewrite Split_append.
  split; [done|].
  destruct (cleanElements_rooted [] (Split dir Separator ++ Split name Separator))
    as [Hpl Hin]; [constructor|].
  set (E := cleanElements true [] (Split dir Separator ++ Split name Separator)) in *.
  unfold elements.
  change ("/" +:+ GoStrings.Join E "/")
    with ("" +:+ String Separator (GoStrings.Join E (String Separator ""))).
  rewrite Split_append. simpl IsAbs.
  destruct E as [|e E'] eqn:HE; [reflexivity|].
  rewrite Split_Join.
  - change (cleanElements true [] (e :: E') = e :: E').
    by rewrite cleanElements_plain.
  - done.
  - apply Forall_forall. intros x Hx.
    destruct (Hin x Hx) as [?%elem_of_nil|Hx']; [done|].
    apply elem_of_app in Hx' as [Hx'|Hx'].
    + pose proof (Split_elements dir Separator) as Hall.
      rewrite Forall_forall in Hall. by apply Hall.
    + pose proof (Split_elements name Separator) as Hall.
      rewrite Forall_forall in Hall. by apply Hall.
Qed.

(** Whatever the name, if it ends in ".go" the last element of the joined
    path ends in ".go". *)
Lemma Join_go dir x :
  IsAbs dir = true →
  IsAbs (Join dir (x +:+ ".go")) = true ∧
  ∃ base, last (elements (Join dir (x +:+ ".go"))) = Some base ∧ endsInGo base.
Proof.
  intros Habs. destruct (Join_rooted dir (x +:+ ".go") Habs) as [Hroot ->].
  split; [done|].
  destruct (Split_go x) as (init & stem & ->).
  exists (stem +:+ ".go"). split; [|by exists stem].
  rewrite app_assoc, cleanElements_snoc by apply plain_go.
  apply last_snoc.
Qed.

End MoreFilepathFacts.

Section RunFacts.

Context (env : Collaborators) (cl : CommandLine).

Implicit Types (pkg : Package env) (a : Analysis) (fs : gmap string string).
Implicit Types (evs : list (Event env)).

(** A run stops before the loop, returns after the completed loop, or exits
    in the iteration of one type after the completed loop over the types
    before it. *)
Lemma main_shape fs r fs' evs :
  main env cl fs = (r, fs', evs) →
  (∃ m, r = Exit 1 ∧ fs' = fs ∧ evs = [LogFatalf m]) ∨
  (∃ dir pkg,
     Abs env (requestedDir cl) = Ok dir ∧ ParsePackage env fs dir = Ok pkg ∧
     ((∃ a', r = Return tt ∧
             Completes env cl pkg dir (analysis env cl pkg) fs (types cl) a' fs' evs) ∨
      (∃ pre T post a1 evs1 evs2,
         r = Exit 1 ∧ types cl = pre ++ T :: post ∧
         Completes env cl pkg dir (analysis env cl pkg) fs pre a1 fs' evs1 ∧
         generate env cl pkg dir a1 T fs' = (Exit 1, fs', evs2) ∧
         evs = evs1 ++ evs2))).
Proof.
  intros [(m & -> & -> & -> & _)|(_ & _ & dir & pkg & r' & Habs & Hparse & Hall & ->)]
    %main_inv.
  { left. by exists m. }
  right. exists dir, pkg. do 2 (split; [done|]).
  apply generateAll_shape in Hall
    as [(a' & -> & Hrun)|(pre & T & post & a1 & evs1 & evs2 & -> & Hts & Hpre & Hgen & ->)].
  - left. by exists a'.
  - right. by exists pre, T, post, a1, evs1, evs2.
Qed.

Lemma Completes_written_length pkg dir a fs ts a' fs' evs :
  Completes env cl pkg dir a fs ts a' fs' evs → length (written evs) = length ts.
Proof.
  intros (Hpaths & _ & _)%Completes_written.
  apply (f_equal length) in Hpaths. by rewrite !length_fmap in Hpaths.
Qed.

Lemma reportsFormatFailure_mono evs evs' m :
  (∀ ctx, ctx ∈ executed evs → ctx ∈ executed evs') →
  reportsFormatFailure env evs m → reportsFormatFailure env evs' m.
Proof.
  intros Hsub (ctx & buf & err & Hctx & ?). exists ctx, buf, err. split; [|done].
  by apply Hsub.
Qed.

Lemma formatWarnings_report a buf :
  Execute env a = Ok buf →
  Forall (reportsFormatFailure env [CallExecute a]) (warnings (formatWarnings env buf)).
Proof.
  intros Hex. unfold formatWarnings. destruct (Source env buf) as [src|err] eqn:Hsrc.
  - constructor.
  - simpl. repeat constructor; exists a, buf, err;
      (split; [simpl; apply elem_of_cons; by left|]); (split; [done|]);
      (split; [done|]); [by left|by right].
Qed.

Lemma Completes_reports pkg dir a fs ts a' fs' evs :
  Completes env cl pkg dir a fs ts a' fs' evs →
  Forall (reportsFormatFailure env evs) (warnings evs).
Proof.
  induction 1 as [|a fs T ts values buf a' fs' evs _ Hex _ _ IH]; [constructor|].
  assert (executed ([CallValuesOfType T; CallExecute (setValues a T values)]
                    ++ formatWarnings env buf
                    ++ [CallWriteFile (outputPath env cl dir T) (formatted env buf)] ++ evs)
          = setValues a T values :: executed evs) as Hexd.
  { by rewrite !executed_app, executed_formatWarnings. }
  rewrite !warnings_app. apply Forall_app. split; [constructor|].
  apply Forall_app. split; [|apply Forall_app; split; [constructor|]].
  - eapply Forall_impl; [apply (formatWarnings_report _ buf Hex)|].
    intros m. apply reportsFormatFailure_mono. intros ctx Hctx. rewrite Hexd.
    simpl in Hctx. apply list_elem_of_singleton in Hctx as ->. apply elem_of_cons. by left.
  - eapply Forall_impl; [exact IH|].
    intros m. apply reportsFormatFailure_mono. intros ctx Hctx. rewrite Hexd.
    apply elem_of_cons. by right.
Qed.

Lemma generate_Exit_reports pkg dir a T fs code fs' evs :
  generate env cl pkg dir a T fs = (Exit code, fs', evs) →
  Forall (reportsFormatFailure env evs) (warnings evs).
Proof.
  intros (_ & _ & [(err & _ & ->)|(values & _ & [(err & _ & ->)|(buf & err & Hex & _ & ->)])])
    %generate_Exit; try constructor.
  assert (executed ([CallValuesOfType T; CallExecute (setValues a T values)]
                    ++ formatWarnings env buf
                    ++ [CallWriteFile (Filepath.Join dir (output env cl T)) (formatted env buf);
                        LogFatalf (WritingOutput err)])
          = [setValues a T values]) as Hexd.
  { by rewrite !executed_app, executed_formatWarnings. }
  rewrite !warnings_app. apply Forall_app. split; [constructor|].
  apply Forall_app. split; [|constructor].
  eapply Forall_impl; [apply (formatWarnings_report _ buf Hex)|].
  intros m. apply reportsFormatFailure_mono. intros ctx Hctx. by rewrite Hexd.
Qed.

(** Adding again the values of a type that is already in the table changes
    nothing. *)
Lemma accumulate_again pkg a ts T :
  T ∈ ts →
  setValues (accumulate env pkg a ts) T (valuesOr env pkg T) = accumulate env pkg a ts.
Proof.
  intros Hin.
  pose proof (accumulate_lookup env pkg a ts T) as Hlook.
  rewrite decide_True in Hlook by done.
  destruct (accumulate env pkg a ts) as [c n tv]. unfold setValues. simpl in *.
  f_equal. by apply insert_id.
Qed.

End RunFacts.

(** X1: when filepath.Abs fails on the requested directory, the run logs
    that one fatal line and exits with status 1; the package is not parsed,
    no collaborator of the loop is called and the files are untouched. *)
Theorem X1_abs_failure env cl fs err :
  typeNames cl ≠ "" → (length (flagArgs cl) ≤ 1)%nat →
  Abs env (requestedDir cl) = Err err →
  main env cl fs = (Exit 1, fs, [LogFatalf (NoAbsolutePath err)]).
Proof.
  intros Htn Hargs Habs. rewrite main_eq.
  rewrite decide_False by done. rewrite decide_False by lia. by rewrite Habs.
Qed.

Lemma X1_witness :
  typeNames Demo.pill ≠ "" ∧ (length (flagArgs Demo.pill) ≤ 1)%nat ∧
  Abs Demo.lost (requestedDir Demo.pill) = Err (Parser.ParseError "getwd") ∧
  main Demo.lost Demo.pill ∅
    = (Exit 1, ∅, [LogFatalf (NoAbsolutePath (env:=Demo.lost) (Parser.ParseError "getwd"))]).
Proof.
  assert (typeNames Demo.pill ≠ "") as Htn by (vm_compute; discriminate).
  assert (length (flagArgs Demo.pill) ≤ 1)%nat as Hargs by (vm_compute; lia).
  split; [exact Htn|]. split; [exact Hargs|]. split; [reflexivity|].
  exact (X1_abs_failure Demo.lost Demo.pill ∅ _ Htn Hargs eq_refl).
Defined.

(** X2: when the package of the directory cannot be parsed, the run logs
    that one fatal line and exits with status 1; no type is analyzed,
    nothing is rendered or written and the files are untouched. *)
Theorem X2_parse_failure env cl fs dir err :
  typeNames cl ≠ "" → (length (flagArgs cl) ≤ 1)%nat →
  Abs env (requestedDir cl) = Ok dir →
  ParsePackage env fs dir = Err err →
  main env cl fs = (Exit 1, fs, [LogFatalf (ParsingPackage err)]).
Proof.
  intros Htn Hargs Habs Hparse. rewrite main_eq.
  rewrite decide_False by done. rewrite decide_False by lia. by rewrite Habs, Hparse.
Qed.

Lemma X2_witness :
  typeNames Demo.elsewhere ≠ "" ∧ (length (flagArgs Demo.elsewhere) ≤ 1)%nat ∧
  Abs Demo.env (requestedDir Demo.elsewhere) = Ok "/nowhere" ∧
  ParsePackage Demo.env ∅ "/nowhere" = Err (Parser.ParseError "/nowhere") ∧
  main Demo.env Demo.elsewhere ∅
    = (Exit 1, ∅,
       [LogFatalf (ParsingPackage (env:=Demo.env) (Parser.ParseError "/nowhere"))]).
Proof.
  assert (typeNames Demo.elsewhere ≠ "") as Htn by (vm_compute; discriminate).
  assert (length (flagArgs Demo.elsewhere) ≤ 1)%nat as Hargs by (vm_compute; lia).
  split; [exact Htn|]. split; [exact Hargs|].
  split; [reflexivity|]. split; [reflexivity|].
  exact (X2_parse_failure Demo.env Demo.elsewhere ∅ "/nowhere" _ Htn Hargs eq_refl eq_refl).
Defined.

(** X3: when the template fails for a type, the run exits with status 1
    right after the call of the template: go/format is not run, nothing is
    written for that type or a later one, and the files are those left by
    the iterations of the types before it. *)
Theorem X3_template_failure env cl fs dir pkg pre T post values err a1 fs1 evs1 :
  typeNames cl ≠ "" → (length (flagArgs cl) ≤ 1)%nat →
  Abs env (requestedDir cl) = Ok dir →
  ParsePackage env fs dir = Ok pkg →
  types cl = pre ++ T :: post →
  generateAll env cl pkg dir (analysis env cl pkg) pre fs = (Return a1, fs1, evs1) →
  ValuesOfType env pkg T = Ok values →
  Execute env (setValues a1 T values) = Err err →
  main env cl fs
    = (Exit 1, fs1,
       evs1 ++ [CallValuesOfType T; CallExecute (setValues a1 T values);
                LogFatalf (GeneratingCode err)]) ∧
  written (evs1 ++ [CallValuesOfType T; CallExecute (setValues a1 T values);
                    LogFatalf (GeneratingCode err)]) = written evs1 ∧
  (written evs1).*1 = outputPath env cl dir <$> pre ∧
  fs1 = store fs (written evs1).
Proof.
  intros Htn Hargs Habs Hparse Htypes Hpre HT Hex.
  pose proof (proj1 (generateAll_Return _ _ _ _ _ _ _ _ _ _) Hpre) as Hrun.
  destruct (Completes_written _ _ _ _ _ _ _ _ _ _ Hrun) as (Hpaths & _ & Hfs).
  split; [|split; [|done]].
  - rewrite (main_loop env cl fs dir pkg) by done.
    rewrite Htypes, generateAll_app, Hpre, generateAll_cons, generate_eq, HT.
    cbv zeta. by rewrite Hex.
  - rewrite written_app. simpl. by rewrite app_nil_r.
Qed.

Lemma X3_witness :
  types Demo.pill = [] ++ "Pill" :: [] ∧
  Execute Demo.brokenTemplate
    (setValues (analysis Demo.brokenTemplate Demo.pill Parser.painkiller) "Pill"
       ["Placebo"; "Aspirin"; "Ibuprofen"; "Acetaminophen"])
    = Err (Parser.ParseError "template") ∧
  main Demo.brokenTemplate Demo.pill ∅
    = (Exit 1, ∅,
       [CallValuesOfType "Pill";
        CallExecute
          (setValues (analysis Demo.brokenTemplate Demo.pill Parser.painkiller) "Pill"
             ["Placebo"; "Aspirin"; "Ibuprofen"; "Acetaminophen"]);
        LogFatalf (GeneratingCode (env:=Demo.brokenTemplate)
                     (Parser.ParseError "template"))]).
Proof.
  split; [reflexivity|]. split; [reflexivity|].
  destruct (X3_template_failure Demo.brokenTemplate Demo.pill ∅ "/src/painkiller"
              Parser.painkiller [] "Pill" []
              ["Placebo"; "Aspirin"; "Ibuprofen"; "Acetaminophen"]
              (Parser.ParseError "template")
              (analysis Demo.brokenTemplate Demo.pill Parser.painkiller) ∅ [])
    as (Hmain & _).
  - vm_compute. discriminate.
  - vm_compute. lia.
  - reflexivity.
  - reflexivity.
  - reflexivity.
  - reflexivity.
  - reflexivity.
  - reflexivity.
  - exact Hmain.
Defined.

(** X4: when writing the file of a type fails, the run logs the error and
    exits with status 1 right after the call of ioutil.WriteFile; no later
    type is analyzed. *)
Theorem X4_write_failure env cl fs dir pkg pre T post values buf err a1 fs1 evs1 :
  typeNames cl ≠ "" → (length (flagArgs cl) ≤ 1)%nat →
  Abs env (requestedDir cl) = Ok dir →
  ParsePackage env fs dir = Ok pkg →
  types cl = pre ++ T :: post →
  generateAll env cl pkg dir (analysis env cl pkg) pre fs = (Return a1, fs1, evs1) →
  ValuesOfType env pkg T = Ok values →
  Execute env (setValues a1 T values) = Ok buf →
  writeError env fs1 (outputPath env cl dir T) (formatted env buf) = Some err →
  (main env cl fs).1.1 = Exit 1 ∧
  (main env cl fs).2
    = evs1 ++ [CallValuesOfType T; CallExecute (setValues a1 T values)]
      ++ formatWarnings env buf
      ++ [CallWriteFile (outputPath env cl dir T) (formatted env buf);
          LogFatalf (WritingOutput err)] ∧
  analyzed (main env cl fs).2 = pre ++ [T].
Proof.
  intros Htn Hargs Habs Hparse Htypes Hpre HT Hex Hw.
  pose proof (proj1 (generateAll_Return _ _ _ _ _ _ _ _ _ _) Hpre) as Hrun.
  assert (main env cl fs
          = (Exit 1, fs1,
             evs1 ++ [CallValuesOfType T; CallExecute (setValues a1 T values)]
             ++ formatWarnings env buf
             ++ [CallWriteFile (outputPath env cl dir T) (formatted env buf);
                 LogFatalf (WritingOutput err)])) as ->.
  { rewrite (main_loop env cl fs dir pkg) by done.
    rewrite Htypes, generateAll_app, Hpre, generateAll_cons, generate_eq, HT.
    cbv zeta. rewrite Hex. fold (outputPath env cl dir T). by rewrite Hw. }
  repeat split. cbn [snd].
  rewrite !analyzed_app, (Completes_analyzed _ _ _ _ _ _ _ _ _ _ Hrun).
  by rewrite analyzed_formatWarnings.
Qed.

Lemma X4_witness :
  writeError Demo.readOnly ∅ (outputPath Demo.readOnly Demo.pill "/src/painkiller" "Pill")
    (formatted Demo.readOnly
       (Demo.render
          (setValues (analysis Demo.readOnly Demo.pill Parser.painkiller) "Pill"
             ["Placebo"; "Aspirin"; "Ibuprofen"; "Acetaminophen"])))
    = Some (Parser.ParseError "permission denied") ∧
  (main Demo.readOnly Demo.pill ∅).1.1 = Exit 1 ∧
  analyzed (main Demo.readOnly Demo.pill ∅).2 = [] ++ ["Pill"].
Proof.
  split; [reflexivity|].
  destruct (X4_write_failure Demo.readOnly Demo.pill ∅ "/src/painkiller"
              Parser.painkiller [] "Pill" []
              ["Placebo"; "Aspirin"; "Ibuprofen"; "Acetaminophen"]
              (Demo.render
                 (setValues (analysis Demo.readOnly Demo.pill Parser.painkiller) "Pill"
                    ["Placebo"; "Aspirin"; "Ibuprofen"; "Acetaminophen"]))
              (Parser.ParseError "permission denied")
              (analysis Demo.readOnly Demo.pill Parser.painkiller) ∅ [])
    as (Hexit & _ & Han).
  - vm_compute. discriminate.
  - vm_compute. lia.
  - reflexivity.
  - reflexivity.
  - reflexivity.
  - reflexivity.
  - reflexivity.
  - reflexivity.
  - reflexivity.
  - split; [exact Hexit|exact Han].
Defined.

(** X5: whatever the outcome of a run, a file that no call of
    ioutil.WriteFile names is left as it was, and no file is removed; after
    a run that returns, the output file of every requested type exists. *)
Theorem X5_other_files_untouched env cl fs r fs' evs :
  main env cl fs = (r, fs', evs) →
  (∀ path, path ∉ (written evs).*1 → fs' !! path = fs !! path) ∧
  (∀ path, is_Some (fs !! path) → is_Some (fs' !! path)) ∧
  (r = Return tt →
   ∀ dir T, Abs env (requestedDir cl) = Ok dir → T ∈ types cl →
            is_Some (fs' !! outputPath env cl dir T)).
Proof.
  intros [(m & -> & -> & _)|(dir & pkg & Habs & _ & Hrun)]%main_shape; [done|].
  destruct Hrun as [(a' & _ & Hrun)|(pre & T & post & a1 & evs1 & evs2 & -> & _ & Hrun & _ & ->)];
    destruct (Completes_written _ _ _ _ _ _ _ _ _ _ Hrun) as (Hpaths & _ & ->).
  - split; [intros path Hp; by apply store_lookup_other|].
    split; [intros path; apply store_keeps|].
    intros _ dir' T Habs' HT. rewrite Habs in Habs'. injection Habs' as <-.
    apply store_lookup_written. rewrite Hpaths. apply list_elem_of_fmap. by exists T.
  - split; [|split; [intros path; apply store_keeps|done]].
    intros path Hp. apply store_lookup_other. intros Hin. apply Hp.
    rewrite written_app, fmap_app. apply elem_of_app. by left.
Qed.

Lemma X5_witness :
  let run := main Demo.env Demo.pillAndColor {[ "/src/clinic/pill.go" := "package clinic" ]} in
  run = (Return tt, run.1.2, run.2) ∧
  run.1.2 !! "/src/clinic/pill.go" = Some "package clinic" ∧
  is_Some (run.1.2 !! "/src/clinic/color_yamlenums.go").
Proof.
  intros run.
  assert (run = (Return tt, run.1.2, run.2)) as Hrun.
  { apply run_outcome. vm_compute. reflexivity. }
  split; [exact Hrun|].
  destruct (X5_other_files_untouched Demo.env Demo.pillAndColor _ _ _ _ Hrun)
    as (Hother & _ & Hfiles).
  split.
  - rewrite Hother; [reflexivity|].
    vm_compute. intros Hin. apply list_elem_of_In in Hin. simpl in Hin.
    destruct Hin as [Hin|[Hin|[]]]; discriminate Hin.
  - apply (Hfiles eq_refl "/src/clinic" "Color"); [reflexivity|].
    apply list_elem_of_In. vm_compute. right. left. reflexivity.
Defined.

(** X6: the types are handed to the analyzer in the order of the -type
    list, without gaps, up to the type at which the run stops; the paths
    written follow the same order; no file is written without a rendering
    and no rendering is made without an analysis.  A run that returns has
    analyzed every listed type and written one file for each. *)
Theorem X6_types_in_order env cl fs r fs' evs :
  main env cl fs = (r, fs', evs) →
  analyzed evs `prefix_of` types cl ∧
  (length (written evs) ≤ length (executed evs))%nat ∧
  (length (executed evs) ≤ length (analyzed evs))%nat ∧
  (∀ dir, Abs env (requestedDir cl) = Ok dir →
     (written evs).*1 `prefix_of` (outputPath env cl dir <$> types cl)) ∧
  (r = Return tt → analyzed evs = types cl ∧ length (written evs) = length (types cl)).
Proof.
  intros [(m & -> & _ & ->)|(dir & pkg & Habs & _ & Hrun)]%main_shape.
  { simpl. repeat split; try done; try apply prefix_nil. intros dir _. apply prefix_nil. }
  destruct Hrun as [(a' & -> & Hrun)|(pre & T & post & a1 & evs1 & evs2 & -> & Hts & Hrun & Hgen & ->)].
  - pose proof (Completes_analyzed _ _ _ _ _ _ _ _ _ _ Hrun) as Han.
    destruct (Completes_executed _ _ _ _ _ _ _ _ _ _ Hrun) as [Hex _].
    pose proof (Completes_written_length _ _ _ _ _ _ _ _ _ _ Hrun) as Hw.
    destruct (Completes_written _ _ _ _ _ _ _ _ _ _ Hrun) as (Hpaths & _ & _).
    rewrite Han, Hex, Hw. repeat split; try done.
    intros dir' Habs'. rewrite Habs in Habs'. injection Habs' as <-. by rewrite Hpaths.
  - pose proof (Completes_analyzed _ _ _ _ _ _ _ _ _ _ Hrun) as Han.
    destruct (Completes_executed _ _ _ _ _ _ _ _ _ _ Hrun) as [Hex _].
    pose proof (Completes_written_length _ _ _ _ _ _ _ _ _ _ Hrun) as Hw.
    destruct (Completes_written _ _ _ _ _ _ _ _ _ _ Hrun) as (Hpaths & _ & _).
    destruct (generate_Exit_calls _ _ _ _ _ _ _ _ _ _ Hgen) as (Han2 & Hcalls & _).
    rewrite analyzed_app, executed_app, written_app, !length_app, Han, Han2, Hex, Hw.
    split; [|split; [|split; [|split; [|done]]]].
    + rewrite Hts. exists post. by rewrite <- app_assoc.
    + destruct Hcalls as [[-> ->]|(values & _ & -> & [->|(buf & _ & ->)])]; simpl; lia.
    + destruct Hcalls as [[-> _]|(values & _ & -> & _)]; simpl; lia.
    + intros dir' Habs'. rewrite Habs in Habs'. injection Habs' as <-.
      rewrite fmap_app, Hpaths, Hts, fmap_app, fmap_cons.
      destruct Hcalls as [[_ ->]|(values & _ & _ & [->|(buf & _ & ->)])]; simpl.
      * rewrite app_nil_r. by apply prefix_app_r.
      * rewrite app_nil_r. by apply prefix_app_r.
      * apply prefix_app. by apply prefix_cons, prefix_nil.
Qed.

Lemma X6_witness :
  let run := main Demo.env Demo.pillAndColour ∅ in
  run = (run.1.1, run.1.2, run.2) ∧
  analyzed run.2 `prefix_of` types Demo.pillAndColour ∧
  analyzed run.2 = ["Pill"; "Colour"] ∧
  (written run.2).*1 = ["/src/clinic/pill_yamlenums.go"].
Proof.
  intros run.
  assert (run = (run.1.1, run.1.2, run.2)) as Hrun by apply run_parts.
  split; [exact Hrun|].
  destruct (X6_types_in_order Demo.env Demo.pillAndColour _ _ _ _ Hrun) as [Hprefix _].
  split; [exact Hprefix|]. split; vm_compute; reflexivity.
Defined.

(** X7: the bytes of the i-th call of ioutil.WriteFile are the rendering of
    the i-th context handed to the template, as go/format returns it, or
    unchanged when go/format rejects it; the path is that of the i-th
    listed type; a run that returns has made one such call per listed
    type. *)
Theorem X7_written_bytes env cl fs r fs' evs :
  main env cl fs = (r, fs', evs) →
  (∀ i path src, written evs !! i = Some (path, src) →
     ∃ dir T ctx buf,
       Abs env (requestedDir cl) = Ok dir ∧
       types cl !! i = Some T ∧
       executed evs !! i = Some ctx ∧
       Execute env ctx = Ok buf ∧
       path = Filepath.Join dir (output env cl T) ∧
       src = match Source env buf with
             | Ok formattedSrc => formattedSrc
             | Err _ => buf
             end) ∧
  (r = Return tt → length (written evs) = length (types cl)).
Proof.
  intros Hmain. split.
  - intros i path src Hi.
    destruct (main_inv _ _ _ _ _ _ Hmain)
      as [(m & _ & _ & -> & _)|(_ & _ & dir & pkg & r' & Habs & _ & Hall & _)].
    { simpl in Hi. by rewrite lookup_nil in Hi. }
    destruct (generateAll_written _ _ _ _ _ _ _ _ _ _ _ _ _ Hall Hi)
      as (T & ctx & buf & HT & Hctx & Hex & -> & ->).
    by exists dir, T, ctx, buf.
  - intros ->. apply main_Return in Hmain as (_ & _ & dir & pkg & a' & _ & _ & Hrun).
    by eapply Completes_written_length.
Qed.

Lemma X7_witness :
  let run := main Demo.unformattable Demo.pill ∅ in
  let buf := Demo.render
               (setValues (analysis Demo.unformattable Demo.pill Parser.painkiller) "Pill"
                  ["Placebo"; "Aspirin"; "Ibuprofen"; "Acetaminophen"]) in
  run = (Return tt, run.1.2, run.2) ∧
  written run.2 !! 0%nat = Some ("/src/painkiller/pill_yamlenums.go", buf) ∧
  (∃ dir T ctx buf',
     Abs Demo.unformattable (requestedDir Demo.pill) = Ok dir ∧
     types Demo.pill !! 0%nat = Some T ∧
     executed run.2 !! 0%nat = Some ctx ∧
     Execute Demo.unformattable ctx = Ok buf' ∧
     "/src/painkiller/pill_yamlenums.go"
       = Filepath.Join dir (output Demo.unformattable Demo.pill T) ∧
     buf = match Source Demo.unformattable buf' with
           | Ok formattedSrc => formattedSrc
           | Err _ => buf'
           end) ∧
  length (written run.2) = length (types Demo.pill).
Proof.
  intros run buf.
  assert (run = (Return tt, run.1.2, run.2)) as Hrun.
  { apply run_outcome. vm_compute. reflexivity. }
  assert (written run.2 !! 0%nat = Some ("/src/painkiller/pill_yamlenums.go", buf)) as Hw.
  { vm_compute. reflexivity. }
  destruct (X7_written_bytes Demo.unformattable Demo.pill _ _ _ _ Hrun) as [Hbytes Hcount].
  split; [exact Hrun|]. split; [exact Hw|].
  split; [exact (Hbytes 0%nat _ _ Hw)|exact (Hcount eq_refl)].
Defined.



(** X9: in a run that returns, the file of every requested type T is
    written, in the order of the types, at filepath.Join(dir, name) with
    name = lowercase(prefix + T + suffix) + ".go", replacing what the path
    held; when the directory is rooted and the name contains no separator,
    that path is the entry [name] of the scanned directory.  (Lowering
    leaves the extension in place.) *)
Theorem X9_output_file env cl fs fs' evs :
  keepsExtension env →
  main env cl fs = (Return tt, fs', evs) →
  ∃ dir,
    Abs env (requestedDir cl) = Ok dir ∧
    (written evs).*1
      = (λ T, Filepath.Join dir
                (ToLower env (outputPrefix cl +:+ T +:+ outputSuffix cl) +:+ ".go"))
        <$> types cl ∧
    fs' = store fs (written evs) ∧
    (∀ path, path ∈ (written evs).*1 →
       fs' !! path = (list_to_map (reverse (written evs)) : gmap string string) !! path ∧
       is_Some (fs' !! path)) ∧
    (∀ T, Filepath.IsAbs dir = true →
          GoStrings.hasByte Filepath.Separator (outputName env cl T) = false →
          Filepath.elements (Filepath.Join dir (outputName env cl T))
          = Filepath.elements dir ++ [outputName env cl T]).
Proof.
  intros Hext (_ & _ & dir & pkg & a' & Habs & _ & Hrun)%main_Return.
  destruct (Completes_written _ _ _ _ _ _ _ _ _ _ Hrun) as (Hpaths & _ & ->).
  exists dir. split; [done|]. split.
  { rewrite Hpaths. apply list_fmap_ext. intros _ T _.
    unfold outputPath. by rewrite StringFacts.output_outputName. }
  split; [done|]. split.
  { intros path Hpath. by apply store_lookup_written. }
  intros T Hdir Hsep.
  apply FilepathFacts.Join_elements; [done..|]. apply FilepathFacts.plain_go.
Qed.

Lemma X9_witness :
  let run := main Demo.env Demo.prefixed ∅ in
  keepsExtension Demo.env ∧
  run = (Return tt, run.1.2, run.2) ∧
  output Demo.env Demo.prefixed "Pill" = "xpill_y.go" ∧
  (written run.2).*1 = ["/src/painkiller/xpill_y.go"] ∧
  Filepath.elements "/src/painkiller/xpill_y.go" = ["src"; "painkiller"; "xpill_y.go"].
Proof.
  intros run.
  assert (keepsExtension Demo.env) as Hext.
  { intros x. apply StringFacts.lowerASCII_append. }
  assert (run = (Return tt, run.1.2, run.2)) as Hrun.
  { apply run_outcome. vm_compute. reflexivity. }
  split; [exact Hext|]. split; [exact Hrun|]. split; [vm_compute; reflexivity|].
  destruct (X9_output_file Demo.env Demo.prefixed ∅ _ _ Hext Hrun)
    as (dir & Habs & Hpaths & _ & _ & Hin).
  injection Habs as <-. split.
  - rewrite Hpaths. vm_compute. reflexivity.
  - apply (Hin "Pill"); vm_compute; reflexivity.
Defined.

(** X10: the list of types is never empty; its names hold no comma and,
    joined by commas, give back the -type flag, so that empty names between
    commas are types like the others; a run that returns has written at
    least one file. *)
Theorem X10_types_of_the_flag env cl :
  types cl ≠ [] ∧
  GoStrings.Join (types cl) "," = typeNames cl ∧
  Forall (λ T, GoStrings.hasByte ","%char T = false) (types cl) ∧
  (∀ fs fs' evs, main env cl fs = (Return tt, fs', evs) → written evs ≠ []).
Proof.
  split; [apply StringFacts.Split_nonempty|].
  split; [apply MoreStringFacts.Join_Split|].
  split; [apply StringFacts.Split_elements|].
  intros fs fs' evs (_ & _ & dir & pkg & a' & _ & _ & Hrun)%main_Return Hnil.
  apply Completes_written_length in Hrun. rewrite Hnil in Hrun. simpl in Hrun.
  pose proof (StringFacts.Split_nonempty (typeNames cl) ","%char) as Hne.
  unfold types in Hrun. by destruct (GoStrings.Split (typeNames cl) ",").
Qed.

Lemma X10_witness :
  main Demo.env Demo.pillAndColor ∅
    = (Return tt, (main Demo.env Demo.pillAndColor ∅).1.2,
       (main Demo.env Demo.pillAndColor ∅).2) ∧
  written (main Demo.env Demo.pillAndColor ∅).2 ≠ [].
Proof.
  assert (main Demo.env Demo.pillAndColor ∅
          = (Return tt, (main Demo.env Demo.pillAndColor ∅).1.2,
             (main Demo.env Demo.pillAndColor ∅).2)) as Hrun.
  { apply run_outcome. vm_compute. reflexivity. }
  split; [exact Hrun|].
  destruct (X10_types_of_the_flag Demo.env Demo.pillAndColor) as (_ & _ & _ & Hwritten).
  exact (Hwritten _ _ _ Hrun).
Defined.

(** X11: a run logs at most one fatal line; it logs one exactly when it
    does not return, and then its exit status is 1. *)
Theorem X11_one_fatal_line env cl fs r fs' evs :
  main env cl fs = (r, fs', evs) →
  (length (fatal evs) ≤ 1)%nat ∧
  (fatal evs = [] ↔ r = Return tt) ∧
  (r = Return tt ∨ r = Exit 1).
Proof.
  intros [(m & -> & _ & ->)|(dir & pkg & _ & _ & Hrun)]%main_shape.
  { simpl. split; [lia|]. split; [split; discriminate|by right]. }
  destruct Hrun as [(a' & -> & Hrun)|(pre & T & post & a1 & evs1 & evs2 & -> & _ & Hrun & Hgen & ->)].
  - rewrite (Completes_fatal _ _ _ _ _ _ _ _ _ _ Hrun). simpl.
    split; [lia|]. split; [done|by left].
  - destruct (generate_Exit_calls _ _ _ _ _ _ _ _ _ _ Hgen) as (_ & _ & m & Hm).
    rewrite fatal_app, (Completes_fatal _ _ _ _ _ _ _ _ _ _ Hrun), Hm. simpl.
    split; [lia|]. split; [split; discriminate|by right].
Qed.

Lemma X11_witness :
  let run := main Demo.env Demo.pillAndColour ∅ in
  run = (Exit 1, run.1.2, run.2) ∧
  fatal run.2
    = [FindingValues (env:=Demo.env) "Colour" (Parser.TypeNotFoundError "Colour")] ∧
  (length (fatal run.2) ≤ 1)%nat ∧
  (fatal run.2 = [] ↔ run.1.1 = Return tt) ∧
  (run.1.1 = Return tt ∨ run.1.1 = Exit 1).
Proof.
  intros run.
  assert (run = (Exit 1, run.1.2, run.2)) as Hrun.
  { apply run_outcome. vm_compute. reflexivity. }
  split; [exact Hrun|]. split; [reflexivity|].
  exact (X11_one_fatal_line Demo.env Demo.pillAndColour _ run.1.1 _ _ (run_parts run)).
Defined.

(** X12: a type listed again is processed again: its iteration hands the
    template the same context as the iteration before it and writes the
    same bytes; in a run that returns both iterations have taken place. *)
Theorem X12_repeated_type env cl fs r fs' evs i T :
  main env cl fs = (r, fs', evs) →
  types cl !! S i = Some T →
  T ∈ take (S i) (types cl) →
  (∀ c1 c2, executed evs !! i = Some c1 → executed evs !! S i = Some c2 → c2 = c1) ∧
  (∀ p1 s1 p2 s2, written evs !! i = Some (p1, s1) → written evs !! S i = Some (p2, s2) →
                  s2 = s1) ∧
  (r = Return tt →
   ∃ c s, executed evs !! i = Some c ∧ executed evs !! S i = Some c ∧
          (written evs).*2 !! i = Some s ∧ (written evs).*2 !! S i = Some s).
Proof.
  intros Hmain HT Hin.
  cut ((∀ c1 c2, executed evs !! i = Some c1 → executed evs !! S i = Some c2 → c2 = c1) ∧
       (∀ p1 s1 p2 s2, written evs !! i = Some (p1, s1) →
                       written evs !! S i = Some (p2, s2) → s2 = s1)).
  { intros [Hsame Hbytes]. split; [exact Hsame|]. split; [exact Hbytes|].
    intros ->. apply main_Return in Hmain as (_ & _ & dir & pkg & a' & _ & _ & Hrun).
    pose proof (lookup_lt_Some _ _ _ HT) as Hlt.
    destruct (Completes_executed _ _ _ _ _ _ _ _ _ _ Hrun) as [Hlen _].
    pose proof (Completes_written_length _ _ _ _ _ _ _ _ _ _ Hrun) as Hwlen.
    destruct (lookup_lt_is_Some_2 (executed evs) i) as [c1 Hc1]; [lia|].
    destruct (lookup_lt_is_Some_2 (executed evs) (S i)) as [c2 Hc2]; [lia|].
    destruct (lookup_lt_is_Some_2 (written evs) i) as [[p1 s1] Hw1]; [lia|].
    destruct (lookup_lt_is_Some_2 (written evs) (S i)) as [[p2 s2] Hw2]; [lia|].
    rewrite (Hsame _ _ Hc1 Hc2) in Hc2. rewrite (Hbytes _ _ _ _ Hw1 Hw2) in Hw2.
    exists c1, s1. rewrite !list_lookup_fmap, Hw1, Hw2. done. }
  destruct (main_inv _ _ _ _ _ _ Hmain)
    as [(m & _ & _ & -> & _)|(_ & _ & dir & pkg & r' & _ & _ & Hall & _)].
  { split; intros ? ?; simpl; [intros Hc | intros ? ? Hc]; by rewrite lookup_nil in Hc. }
  assert (∀ c1 c2, executed evs !! i = Some c1 → executed evs !! S i = Some c2 → c2 = c1)
    as Hctx.
  { intros c1 c2 H1 H2.
    destruct (generateAll_executed _ _ _ _ _ _ _ _ _ _ _ _ Hall H1) as (_ & _ & ->).
    destruct (generateAll_executed _ _ _ _ _ _ _ _ _ _ _ _ Hall H2) as (_ & _ & ->).
    rewrite (take_S_r _ _ _ HT), accumulate_snoc. by apply accumulate_again. }
  split; [exact Hctx|].
  intros p1 s1 p2 s2 H1 H2.
  destruct (generateAll_written _ _ _ _ _ _ _ _ _ _ _ _ _ Hall H1)
    as (T1 & c1 & buf1 & _ & Hc1 & Hex1 & _ & ->).
  destruct (generateAll_written _ _ _ _ _ _ _ _ _ _ _ _ _ Hall H2)
    as (T2 & c2 & buf2 & _ & Hc2 & Hex2 & _ & ->).
  rewrite (Hctx _ _ Hc1 Hc2), Hex1 in Hex2. by injection Hex2 as <-.
Qed.

Lemma X12_witness :
  let run := main Demo.env Demo.pillTwice ∅ in
  run = (Return tt, run.1.2, run.2) ∧
  types Demo.pillTwice !! 1%nat = Some "Pill" ∧
  "Pill" ∈ take 1 (types Demo.pillTwice) ∧
  ∃ c s, executed run.2 !! 0%nat = Some c ∧ executed run.2 !! 1%nat = Some c ∧
         (written run.2).*2 !! 0%nat = Some s ∧ (written run.2).*2 !! 1%nat = Some s.
Proof.
  intros run.
  assert (run = (Return tt, run.1.2, run.2)) as Hrun.
  { apply run_outcome. vm_compute. reflexivity. }
  assert ("Pill" ∈ take 1 (types Demo.pillTwice)) as Hin.
  { apply list_elem_of_In. vm_compute. left. reflexivity. }
  split; [exact Hrun|]. split; [reflexivity|]. split; [exact Hin|].
  destruct (X12_repeated_type Demo.env Demo.pillTwice _ _ _ _ 0%nat "Pill"
              Hrun eq_refl Hin) as (_ & _ & Hboth).
  exact (Hboth eq_refl).
Defined.

(** X13: when the directory returned by filepath.Abs is rooted, every path
    handed to ioutil.WriteFile is rooted and its last element ends in
    ".go", whatever the prefix, the suffix and the type names are.
    (Lowering leaves the extension in place.) *)
Theorem X13_written_paths_end_in_go env cl fs r fs' evs dir :
  keepsExtension env →
  main env cl fs = (r, fs', evs) →
  Abs env (requestedDir cl) = Ok dir →
  Filepath.IsAbs dir = true →
  ∀ path, path ∈ (written evs).*1 →
    Filepath.IsAbs path = true ∧
    ∃ base, last (Filepath.elements path) = Some base ∧ endsInGo base.
Proof.
  intros Hext Hmain Habs Hdir path Hpath.
  apply list_elem_of_fmap in Hpath as ([p src] & -> & Hin).
  apply list_elem_of_lookup in Hin as [i Hi].
  destruct (main_inv _ _ _ _ _ _ Hmain)
    as [(m & _ & _ & -> & _)|(_ & _ & dir' & pkg & r' & Habs' & _ & Hall & _)].
  { simpl in Hi. by rewrite lookup_nil in Hi. }
  rewrite Habs in Habs'. injection Habs' as <-.
  destruct (generateAll_written _ _ _ _ _ _ _ _ _ _ _ _ _ Hall Hi)
    as (T & _ & _ & _ & _ & _ & -> & _).
  simpl. unfold outputPath. rewrite StringFacts.output_outputName by done.
  unfold outputName. by apply MoreFilepathFacts.Join_go.
Qed.

Lemma X13_witness :
  let run := main Demo.env Demo.escaping ∅ in
  keepsExtension Demo.env ∧
  run = (run.1.1, run.1.2, run.2) ∧
  Filepath.IsAbs "/src/painkiller" = true ∧
  "/src/pill_yamlenums.go" ∈ (written run.2).*1 ∧
  Filepath.IsAbs "/src/pill_yamlenums.go" = true ∧
  ∃ base, last (Filepath.elements "/src/pill_yamlenums.go") = Some base ∧ endsInGo base.
Proof.
  intros run.
  assert (run = (run.1.1, run.1.2, run.2)) as Hrun by apply run_parts.
  assert ("/src/pill_yamlenums.go" ∈ (written run.2).*1) as Hin.
  { apply list_elem_of_In. vm_compute. left. reflexivity. }
  assert (keepsExtension Demo.env) as Hext.
  { intros x. apply StringFacts.lowerASCII_append. }
  split; [exact Hext|]. split; [exact Hrun|]. split; [reflexivity|]. split; [exact Hin|].
  exact (X13_written_paths_end_in_go Demo.env Demo.escaping _ _ _ _ "/src/painkiller"
           Hext Hrun eq_refl eq_refl _ Hin).
Defined.



(** X15: every warning of a run reports a rendering of that run which
    go/format rejected: the template had produced it for a context of the
    run, and format.Source failed on it with the error shown. *)
Theorem X15_warnings_report_format_failures env cl fs r fs' evs :
  main env cl fs = (r, fs', evs) →
  Forall (reportsFormatFailure env evs) (warnings evs).
Proof.
  intros [(m & _ & _ & ->)|(dir & pkg & _ & _ & Hrun)]%main_shape; [constructor|].
  destruct Hrun as [(a' & _ & Hrun)|(pre & T & post & a1 & evs1 & evs2 & _ & _ & Hrun & Hgen & ->)].
  - by eapply Completes_reports.
  - rewrite warnings_app. apply Forall_app. split.
    + eapply Forall_impl; [by eapply Completes_reports|].
      intros m. apply reportsFormatFailure_mono. intros ctx Hctx.
      rewrite executed_app. apply elem_of_app. by left.
    + eapply Forall_impl; [by eapply generate_Exit_reports|].
      intros m. apply reportsFormatFailure_mono. intros ctx Hctx.
      rewrite executed_app. apply elem_of_app. by right.
Qed.

Lemma X15_witness :
  let run := main Demo.unformattable Demo.pill ∅ in
  run = (run.1.1, run.1.2, run.2) ∧
  length (warnings run.2) = 2%nat ∧
  Forall (reportsFormatFailure Demo.unformattable run.2) (warnings run.2).
Proof.
  intros run.
  assert (run = (run.1.1, run.1.2, run.2)) as Hrun by apply run_parts.
  split; [exact Hrun|]. split; [vm_compute; reflexivity|].
  exact (X15_warnings_report_format_failures Demo.unformattable Demo.pill _ _ _ _ Hrun).
Defined.
